(** * cosign [sign] command: a shallow embedding of [cmd/sign.go]

    The development follows the Go source top to bottom:
    - [GoStrings]  : the functions of package [strings] the file calls
                     ([SplitN], [ReplaceAll]) and [base64.StdEncoding];
    - [Name]       : the value types of go-containerregistry the file touches
                     ([v1.Hash], [name.Repository], [name.Tag],
                     [name.Reference]);
    - [Cmd]        : [annotationsMap.Set], [Sign] (the [Exec] closure) and
                     [sign], written in a small trace-and-error monad whose
                     events are the calls to collaborators and the writes to
                     stdout/stderr.

    Go strings are byte sequences; so are Rocq's [string]s. *)

From Stdlib Require Import ZArith NArith Ascii String List Bool Lia.
From Stdlib.Strings Require Import Byte.
From Stdlib Require Import Sorted.
From Stdlib Require DecimalString.
From stdpp Require Import base option strings gmap list.

Local Open Scope string_scope.
Local Open Scope list_scope.

(** ** Package [strings] and [encoding/base64] *)
Module GoStrings.

(** [s[:m]] and [s[m:]].  Go panics when [m > len(s)]; every call below takes
    [m] from [Index], hence in range; the model saturates otherwise. *)
Fixpoint slice_to (s : string) (m : nat) {struct m} : string :=
  match m with
  | O => ""
  | S k => match s with
           | "" => ""
           | String c s' => String c (slice_to s' k)
           end
  end.

Fixpoint slice_from (s : string) (m : nat) {struct m} : string :=
  match m with
  | O => s
  | S k => match s with
           | "" => ""
           | String _ s' => slice_from s' k
           end
  end.

(** [strings.HasPrefix(s, prefix)]. *)
Fixpoint HasPrefix (s prefix : string) : bool :=
  match prefix, s with
  | "", _ => true
  | String p ps, String c cs => if Ascii.eqb c p then HasPrefix cs ps else false
  | String _ _, "" => false
  end.

(** [strings.Index(s, substr)]: the byte offset of the first occurrence;
    [None] stands for Go's [-1]. *)
Fixpoint Index (s substr : string) : option nat :=
  if HasPrefix s substr then Some 0
  else match s with
       | "" => None
       | String _ s' => S <$> Index s' substr
       end.

(** [strings.Contains(s, substr)] is [Index(s, substr) >= 0]. *)
Definition Contains (s substr : string) : bool :=
  match Index s substr with Some _ => true | None => false end.

(** [explode]: the split by an empty separator, one piece per byte.  Go
    splits per UTF-8 sequence, which is the same on ASCII input; [sign.go]
    never passes an empty separator. *)
Fixpoint explode (fuel : nat) (s : string) : list string :=
  match fuel, s with
  | _, "" => []
  | O, _ => [s]
  | S k, String c s' => match s' with
                        | "" => [String c ""]
                        | _ => String c "" :: explode k s'
                        end
  end.

(** The loop of [genSplit] with [sepSave = 0]: [fuel] is the [n-1] cuts still
    allowed; the remainder is the last piece. *)
Fixpoint genSplit (fuel : nat) (s sep : string) : list string :=
  match fuel with
  | O => [s]
  | S k => match Index s sep with
           | None => [s]
           | Some m => slice_to s m :: genSplit k (slice_from s (m + String.length sep)) sep
           end
  end.

(** [strings.SplitN(s, sep, n)]: [n = 0] gives nil, [n < 0] all the pieces,
    [n > 0] at most [n] pieces, the last one being the unsplit rest. *)
Definition SplitN (s sep : string) (n : Z) : list string :=
  if (n =? 0)%Z then []
  else
    let cuts := if (n <? 0)%Z then String.length s else Z.to_nat (n - 1) in
    match sep with
    | "" => explode cuts s
    | _ => genSplit cuts s sep
    end.

(** The loop of [strings.Replace] for a non-empty [old]: copy up to the next
    occurrence, write [new], continue after the occurrence. *)
Fixpoint Replace_loop (fuel : nat) (s old new : string) : string :=
  match fuel with
  | O => s
  | S k => match Index s old with
           | None => s
           | Some j =>
               slice_to s j +:+ new +:+
               Replace_loop k (slice_from s (j + String.length old)) old new
           end
  end.

(** The empty pattern matches before every byte and at the end (per UTF-8
    sequence in Go, the same on ASCII). *)
Fixpoint Replace_empty (s new : string) : string :=
  match s with
  | "" => new
  | String c s' => new +:+ String c (Replace_empty s' new)
  end.

(** [strings.ReplaceAll(s, old, new) = Replace(s, old, new, -1)]: every
    non-overlapping occurrence, left to right.  A non-empty pattern occurs at
    most [len(s)] times, which bounds the loop. *)
Definition ReplaceAll (s old new : string) : string :=
  if String.eqb old new then s
  else match old with
       | "" => Replace_empty s new
       | _ => Replace_loop (String.length s) s old new
       end.

(** *** [base64.StdEncoding.EncodeToString] (RFC 4648, with padding) *)

Definition encodeStd : string :=
  "ABCDEFGHIJKLMNOPQRSTUVWXYZabcdefghijklmnopqrstuvwxyz0123456789+/".

Definition sextet (n : N) : ascii :=
  match String.get (N.to_nat (N.land n 63)) encodeStd with
  | Some c => c
  | None => "="%char
  end.

Fixpoint EncodeToString (src : list byte) : string :=
  match src with
  | [] => ""
  | [a] =>
      let v := N.shiftl (Byte.to_N a) 16 in
      String (sextet (N.shiftr v 18)) (String (sextet (N.shiftr v 12)) "==")
  | [a; b] =>
      let v := N.lor (N.shiftl (Byte.to_N a) 16) (N.shiftl (Byte.to_N b) 8) in
      String (sextet (N.shiftr v 18)) (String (sextet (N.shiftr v 12))
        (String (sextet (N.shiftr v 6)) "="))
  | a :: b :: c :: rest =>
      let v := N.lor (N.lor (N.shiftl (Byte.to_N a) 16) (N.shiftl (Byte.to_N b) 8))
                     (Byte.to_N c) in
      String (sextet (N.shiftr v 18)) (String (sextet (N.shiftr v 12))
        (String (sextet (N.shiftr v 6)) (String (sextet v) (EncodeToString rest))))
  end.

(** [strconv.Itoa] on a length. *)
Definition Itoa (n : nat) : string :=
  DecimalString.NilZero.string_of_uint (Nat.to_uint n).

End GoStrings.

Import GoStrings.


(** ** go-containerregistry: [v1.Hash], [v1.Descriptor] and package [name] *)
Module Name.

(** [v1.Hash]: [String()] is [Algorithm + ":" + Hex]. *)
Record Hash := { Algorithm : string; Hex : string }.

Definition Hash_String (h : Hash) : string := Algorithm h +:+ ":" +:+ Hex h.

(** [name.Registry], [name.Repository], [name.Tag], [name.Digest]: the
    structs with the fields their methods read. *)
Record Registry := { insecure : bool; registry : string }.

Definition DefaultRegistry : string := "index.docker.io".

(** [Registry.RegistryStr()] returns the field as it is (the default
    registry is filled in when a reference is parsed); [Registry.Name()] is
    the same string. *)
Definition RegistryStr (r : Registry) : string := registry r.

Definition Registry_Name (r : Registry) : string := RegistryStr r.

Record Repository := { Repository_Registry : Registry; repository : string }.

Definition defaultNamespace : string := "library".

(** [hasImplicitNamespace(repo, reg)]: a repository of the default registry
    written without a ['/'] lives in the namespace [library]. *)
Definition hasImplicitNamespace (repo : string) (reg : Registry) : bool :=
  negb (Contains repo "/") && String.eqb (RegistryStr reg) DefaultRegistry.

(** [path.Join(dir, elem)] for a plain name [dir] and an [elem] without
    ['/'], which is what [RepositoryStr] passes: the two are joined by ['/']
    and [path.Clean] then drops an empty or ["."] last element and resolves
    a [".."] one. *)
Definition path_Join (dir elem : string) : string :=
  if String.eqb elem "" || String.eqb elem "." then dir
  else if String.eqb elem ".." then "."
  else dir +:+ "/" +:+ elem.

(** [Repository.RepositoryStr()]. *)
Definition RepositoryStr (r : Repository) : string :=
  if hasImplicitNamespace (repository r) (Repository_Registry r)
  then path_Join defaultNamespace (repository r)
  else repository r.

(** [Repository.Name()]. *)
Definition Repository_Name (r : Repository) : string :=
  let regName := Registry_Name (Repository_Registry r) in
  if negb (String.eqb regName "") then regName +:+ "/" +:+ RepositoryStr r
  else RepositoryStr r.

Record Tag := { Tag_Repository : Repository; tag : string; Tag_original : string }.

Definition TagStr (t : Tag) : string := tag t.

Definition Tag_Name (t : Tag) : string :=
  Repository_Name (Tag_Repository t) +:+ ":" +:+ TagStr t.

Definition Tag_String (t : Tag) : string := Tag_original t.

(** [Repository.Tag(identifier)]: the tag [identifier] of this repository. *)
Definition Repository_Tag (r : Repository) (identifier : string) : Tag :=
  let t := {| Tag_Repository := r; tag := identifier; Tag_original := "" |} in
  {| Tag_Repository := r; tag := identifier; Tag_original := Tag_Name t |}.

Record Digest := { Digest_Repository : Repository; digest : string; Digest_original : string }.

(** [name.Reference] is an interface; [Tag] and [Digest] implement it. *)
Inductive Reference :=
| TagRef (t : Tag)
| DigestRef (d : Digest).

Definition Context (ref : Reference) : Repository :=
  match ref with
  | TagRef t => Tag_Repository t
  | DigestRef d => Digest_Repository d
  end.

End Name.

Import Name.

(** ** Package [main]: [cmd/sign.go] *)
Module Cmd.

Abbreviation bytes := (list byte).

(** [ed25519.PrivateKey] is a byte slice; [ed25519.PrivateKeySize] is 64. *)
Abbreviation PrivateKey := (list byte).
Definition PrivateKeySize : nat := 64.

(** Go's [error] values: the sentinel [flag.ErrHelp] and errors carrying a
    message ([fmt.Errorf], and whatever the collaborators return). *)
Inductive error :=
| ErrHelp
| Errorf (msg : string).

(** A Go result pair [(x, err)]. *)
Inductive result (A : Type) :=
| ok (a : A)
| failed (err : error).
Arguments ok {A} a.
Arguments failed {A} err.

(** [v1.Descriptor] (the fields [URLs], [Annotations] and [Platform] are read
    by nothing here) and [remote.Descriptor], which embeds it. *)
Record v1_Descriptor := { MediaType : string; Size : Z; Digest_ : Hash }.
Record remote_Descriptor := { Descriptor : v1_Descriptor; Manifest : bytes }.

(** [pkg.Uploader]: the interface with the one method [Upload]; a nil result
    is [None]. *)
Record Uploader := { Upload : bytes -> bytes -> Tag -> option error }.

(** A Go [map[string]string]; [None] is the nil map. *)
Abbreviation gomap := (option (gmap string string)).

(** What one run does to the outside, in order: each call to a collaborator
    with its arguments and its result, and each write to stdout or stderr. *)
Inductive Event :=
| CallParseReference (s : string) (r : result Reference)
| CallRemoteGet (ref : Reference) (r : result remote_Descriptor)
| CallReadFile (filename : string) (r : result bytes)
| CallPayload (d : v1_Descriptor) (a : gomap) (r : result bytes)
| CallGetPass (confirm : bool) (r : result bytes)
| CallLoadPrivateKey (keyPath : string) (pass : bytes) (r : result PrivateKey)
| CallEd25519Sign (pk : PrivateKey) (message : bytes) (r : option bytes)
| CallUpload (signature payload : bytes) (dst : Tag) (r : option error)
| Stdout (s : string)
| Stderr (s : string).

(** How a Go function ends: it returns a value, returns a non-nil error, or
    panics. *)
Inductive Run (A : Type) :=
| Return (a : A)
| Fail (err : error)
| Panic (msg : string).
Arguments Return {A} a.
Arguments Fail {A} err.
Arguments Panic {A} msg.

(** The trace of a computation and how it ended. *)
Definition Exec (A : Type) : Type := list Event * Run A.

Definition trace {A} (m : Exec A) : list Event := fst m.
Definition outcome {A} (m : Exec A) : Run A := snd m.

#[export] Instance Exec_ret : MRet Exec := fun A a => ([], Return a).

(** [if err != nil { return err }]: the first failure ends the run. *)
#[export] Instance Exec_bind : MBind Exec := fun A B k m =>
  match m with
  | (t, Return a) => let '(t', r) := k a in (t ++ t', r)
  | (t, Fail e) => (t, Fail e)
  | (t, Panic msg) => (t, Panic msg)
  end.

Definition call {A} (ev : result A -> Event) (r : result A) : Exec A :=
  ([ev r], match r with ok a => Return a | failed e => Fail e end).

Definition emit (ev : Event) : Exec unit := ([ev], Return tt).

Definition throw {A} (e : error) : Exec A := ([], Fail e).

Definition newline : string := String (ascii_of_nat 10) "".

(** *** [annotationsMap] *)

Record annotationsMap := { annotations : gomap }.

(** The bindings of a Go map; the nil map has none. *)
Definition bindings (m : gomap) : gmap string string := default ∅ m.

(** [func (a *annotationsMap) Set(s string) error]: the receiver after the
    call, and the error returned ([None] is nil). *)
Definition annotationsMap_Set (a : annotationsMap) (s : string) : annotationsMap * option error :=
  let a1 := match annotations a with
            | None => {| annotations := Some ∅ |}
            | Some _ => a
            end in
  let kvp := SplitN s "=" 2 in
  if negb (Nat.eqb (length kvp) 2) then
    (a1, Some (Errorf ("invalid flag: " +:+ s +:+ ", expected key=value")))
  else
    match kvp with
    | k :: v :: _ => ({| annotations := Some (<[k := v]> (bindings (annotations a1))) |}, None)
    | _ => (a1, None) (* not reached: [len(kvp) = 2] here *)
    end.

(** The flag package calls [Set] once per [-a] occurrence, in order. *)
Definition Set_all (a : annotationsMap) (l : list string) : annotationsMap :=
  foldl (fun a s => fst (annotationsMap_Set a s)) a l.

(** *** The collaborators

    The functions [sign.go] calls whose code lives elsewhere: the registry
    client ([name.ParseReference], [remote.Get]), the file system
    ([ioutil.ReadFile]), package [pkg] ([Payload], [LoadPrivateKey], the
    [Uploaders] registry), [getPass] and the ed25519 arithmetic.  Within one
    run each is called at most once, so a function from arguments to result
    describes it. *)
Record Env := {
  name_ParseReference : string -> result Reference;
  remote_Get : Reference -> result remote_Descriptor;
  ioutil_ReadFile : string -> result bytes;
  pkg_Payload : v1_Descriptor -> gomap -> result bytes;
  getPass : bool -> result bytes;
  pkg_LoadPrivateKey : string -> bytes -> result PrivateKey;
  ed25519_sign : PrivateKey -> bytes -> bytes;
  pkg_Uploaders : gmap string Uploader
}.

Section sign.

Variable E : Env.

(** [ed25519.Sign(privateKey, message)]: it has no error result and panics
    when [len(privateKey) != PrivateKeySize]; the key is used as it is. *)
Definition ed25519_Sign (privateKey : PrivateKey) (message : bytes) : Exec bytes :=
  if Nat.eqb (length privateKey) PrivateKeySize then
    let signature := ed25519_sign E privateKey message in
    ([CallEd25519Sign privateKey message (Some signature)], Return signature)
  else
    ([CallEd25519Sign privateKey message None],
     Panic ("ed25519: bad private key length: " +:+ Itoa (length privateKey))).

(** [uploader.Upload(signature, payload, dstTag)], whose error is [sign]'s. *)
Definition uploader_Upload (uploader : Uploader) (signature payload : bytes) (dstTag : Tag) : Exec unit :=
  let r := Upload uploader signature payload dstTag in
  ([CallUpload signature payload dstTag r],
   match r with None => Return tt | Some e => Fail e end).

(** [// sha256:... -> sha256-...] *)
Definition munge (digest : Hash) : string := ReplaceAll (Hash_String digest) ":" "-".

(** [func sign(ctx, keyPath, imageRef, upload, payloadPath, annotations, uploader) error] *)
Definition sign (keyPath imageRef : string) (upload : bool) (payloadPath : string)
    (annotations : gomap) (uploader : Uploader) : Exec unit :=
  ref ← call (CallParseReference imageRef) (name_ParseReference E imageRef);
  get ← call (CallRemoteGet ref) (remote_Get E ref);
  (* The payload can be specified via a flag to skip generation. *)
  payload ← (if negb (String.eqb payloadPath "") then
               emit (Stderr ("Using payload from: " +:+ payloadPath +:+ newline));;
               call (CallReadFile payloadPath) (ioutil_ReadFile E payloadPath)
             else
               call (CallPayload (Descriptor get) annotations)
                    (pkg_Payload E (Descriptor get) annotations));
  pass ← call (CallGetPass false) (getPass E false);
  pk ← call (CallLoadPrivateKey keyPath pass) (pkg_LoadPrivateKey E keyPath pass);
  signature ← ed25519_Sign pk payload;
  if negb upload then
    emit (Stdout (EncodeToString signature +:+ newline));;
    mret tt
  else
    let munged := munge (Digest_ (Descriptor get)) in
    let dstTag := Repository_Tag (Context ref) munged in
    emit (Stderr ("Pushing signature to: " +:+ Tag_String dstTag +:+ newline));;
    uploader_Upload uploader signature payload dstTag.

(** The flags of [Sign]'s flag set, as parsed. *)
Record Flags := {
  key : string;
  upload : bool;
  payloadPath : string;
  flag_annotations : annotationsMap;
  format : string
}.

(** The defaults: [-upload] is true, [-format] is "compat". *)
Definition default_Flags : Flags :=
  {| key := ""; upload := true; payloadPath := "";
     flag_annotations := {| annotations := None |}; format := "compat" |}.

(** The [Exec] closure of [Sign()]. *)
Definition Sign (f : Flags) (args : list string) : Exec unit :=
  if String.eqb (key f) "" then throw ErrHelp
  else if negb (Nat.eqb (length args) 1) then throw ErrHelp
  else
    match pkg_Uploaders E !! format f with
    | None => throw (Errorf ("unsupported format flag: " +:+ format f))
    | Some uploader =>
        match args with
        | arg0 :: _ =>
            sign (key f) arg0 (upload f) (payloadPath f)
                 (annotations (flag_annotations f)) uploader
        | [] => ([], Panic "index out of range [0] with length 0")
        end
    end.

End sign.

End Cmd.

Import Cmd.

(** ** A small world to run the command in *)
Module World.

Definition hex64 : string :=
  "e3b0c44298fc1c149afbf4c8996fb92427ae41e4649b934ca495991b7852b855".

Definition sha : Hash := {| Algorithm := "sha256"; Hex := hex64 |}.

Definition gcr : Registry := {| insecure := false; registry := "gcr.io" |}.
Definition repo_a : Repository := {| Repository_Registry := gcr; repository := "proj/a" |}.
Definition repo_b : Repository := {| Repository_Registry := gcr; repository := "proj/b" |}.

Definition desc : remote_Descriptor :=
  {| Descriptor := {| MediaType := "application/vnd.docker.distribution.manifest.v2+json";
                      Size := 528; Digest_ := sha |};
     Manifest := [] |}.

(** Two repositories hold the same image; anything else does not parse. *)
Definition parse (s : string) : result Reference :=
  if String.eqb s "gcr.io/proj/a:v1" then ok (TagRef (Repository_Tag repo_a "v1"))
  else if String.eqb s "gcr.io/proj/b:v1" then ok (TagRef (Repository_Tag repo_b "v1"))
  else failed (Errorf ("could not parse reference: " +:+ s)).

Definition accept : Uploader := {| Upload := fun _ _ _ => None |}.
Definition reject : Uploader := {| Upload := fun _ _ _ => Some (Errorf "denied") |}.

Definition seed (n : nat) : bytes := repeat "x"%byte n.

(** [keylen] is the length of the key the loader hands out. *)
Definition env (keylen : nat) : Env :=
  {| name_ParseReference := parse;
     remote_Get := fun _ => ok desc;
     ioutil_ReadFile := fun f =>
       if String.eqb f "payload.json" then ok (list_byte_of_string "hello")
       else failed (Errorf ("open " +:+ f +:+ ": no such file or directory"));
     pkg_Payload := fun d _ => ok (list_byte_of_string (Hash_String (Digest_ d)));
     getPass := fun _ => ok (list_byte_of_string "secret");
     pkg_LoadPrivateKey := fun _ _ => ok (seed keylen);
     ed25519_sign := fun _ m => list_byte_of_string "sig";
     pkg_Uploaders := {[ "compat" := accept; "index" := accept ]} |}.

End World.
(** ** Vocabulary of the statements *)

(** The same string with every byte sent through [f]. *)
Fixpoint map_string (f : ascii -> ascii) (s : string) : string :=
  match s with
  | "" => ""
  | String c s' => String (f c) (map_string f s')
  end.

Fixpoint all_string (p : ascii -> bool) (s : string) : bool :=
  match s with
  | "" => true
  | String c s' => p c && all_string p s'
  end.

(** [subst a b] rewrites the byte [a] to [b] and keeps every other byte. *)
Definition subst (a b : ascii) (c : ascii) : ascii :=
  if Ascii.eqb c a then b else c.

Definition is_digit (c : ascii) : bool :=
  (48 <=? nat_of_ascii c)%nat && (nat_of_ascii c <=? 57)%nat.
Definition is_lower (c : ascii) : bool :=
  (97 <=? nat_of_ascii c)%nat && (nat_of_ascii c <=? 122)%nat.
Definition is_hex (c : ascii) : bool :=
  is_digit c || ((97 <=? nat_of_ascii c)%nat && (nat_of_ascii c <=? 102)%nat).

(** A digest in [algorithm:hex] form: a non-empty algorithm name of
    lower-case letters and digits (such as [sha256]) and a non-empty
    lower-case hexadecimal value. *)
Definition digest_form (h : Hash) : bool :=
  negb (String.eqb (Algorithm h) "") &&
  all_string (fun c => is_lower c || is_digit c) (Algorithm h) &&
  negb (String.eqb (Hex h) "") &&
  all_string is_hex (Hex h).

(** Going back from the address tag to the digest: the separator is put
    back. *)
Definition unmunge (tag : string) : string := ReplaceAll tag "-" ":".

(** The key and the value an annotation argument stands for: the text before
    and after its first ['=']. *)
Definition key_value (s : string) : option (string * string) :=
  match Index s "=" with
  | Some m => Some (slice_to s m, slice_from s (S m))
  | None => None
  end.

(** The value given to [k] by the last argument of [l] that names [k]. *)
Fixpoint last_write (k : string) (l : list string) : option string :=
  match l with
  | [] => None
  | s :: l' =>
      match last_write k l' with
      | Some v => Some v
      | None => match key_value s with
                | Some (k', v) => if String.eqb k' k then Some v else None
                | None => None
                end
      end
  end.

(** The error a call returned, if it returned one. *)
Definition returned_error {A} (r : result A) : option error :=
  match r with ok _ => None | failed e => Some e end.

Definition failure (ev : Event) : option error :=
  match ev with
  | CallParseReference _ r => returned_error r
  | CallRemoteGet _ r => returned_error r
  | CallReadFile _ r => returned_error r
  | CallPayload _ _ r => returned_error r
  | CallGetPass _ r => returned_error r
  | CallLoadPrivateKey _ _ r => returned_error r
  | CallUpload _ _ _ r => r
  | CallEd25519Sign _ _ _ | Stdout _ | Stderr _ => None
  end.

Definition is_payload_build (ev : Event) : bool :=
  match ev with CallPayload _ _ _ => true | _ => false end.

(** The steps that come after reference resolution: reading the payload
    file, building the payload, asking for the passphrase, loading the key,
    signing, printing and uploading. *)
Definition after_resolution (ev : Event) : bool :=
  match ev with
  | CallParseReference _ _ | CallRemoteGet _ _ => false
  | _ => true
  end.

(** The destinations of the uploads of a run, in order. *)
Fixpoint uploads (tr : list Event) : list Tag :=
  match tr with
  | [] => []
  | CallUpload _ _ dst _ :: tr' => dst :: uploads tr'
  | _ :: tr' => uploads tr'
  end.

(** The keys handed to [ed25519.Sign] in a run. *)
Fixpoint signing_keys (tr : list Event) : list PrivateKey :=
  match tr with
  | [] => []
  | CallEd25519Sign pk _ _ :: tr' => pk :: signing_keys tr'
  | _ :: tr' => signing_keys tr'
  end.

(** The error of the first call of a run that returned one, with the events
    that came after that call. *)
Fixpoint first_failure (tr : list Event) : option (error * list Event) :=
  match tr with
  | [] => None
  | ev :: tr' =>
      match failure ev with
      | Some e => Some (e, tr')
      | None => first_failure tr'
      end
  end.

(** What was written to stdout in a run. *)
Fixpoint stdout (tr : list Event) : list string :=
  match tr with
  | [] => []
  | Stdout s :: tr' => s :: stdout tr'
  | _ :: tr' => stdout tr'
  end.

(** The messages handed to [ed25519.Sign] in a run. *)
Fixpoint signed_messages (tr : list Event) : list bytes :=
  match tr with
  | [] => []
  | CallEd25519Sign _ m _ :: tr' => m :: signed_messages tr'
  | _ :: tr' => signed_messages tr'
  end.

(** ** [annotationsMap.String] *)

(** [strings.Join(elems, sep)]. *)
Fixpoint Join (elems : list string) (sep : string) : string :=
  match elems with
  | [] => ""
  | e :: rest =>
      match rest with
      | [] => e
      | _ => e +:+ sep +:+ Join rest sep
      end
  end.

(** [strings.Split(s, sep)] is [SplitN(s, sep, -1)]. *)
Definition Split (s sep : string) : list string := SplitN s sep (-1).

(** [fmt.Sprintf("%s=%s", k, v)]. *)
Definition Sprintf_kv (kv : string * string) : string := fst kv +:+ "=" +:+ snd kv.

(** The slice [s] the loop of [String] builds when [range] visits the
    entries in the order [visited], and the string returned. *)
Definition String_pieces (visited : list (string * string)) : list string :=
  map Sprintf_kv visited.

Definition String_of (visited : list (string * string)) : string :=
  Join (String_pieces visited) ",".

(** [range] over a map visits every entry once, in an order Go leaves
    unspecified; over the nil map it visits nothing. *)
Definition range_order (m : gomap) (visited : list (string * string)) : Prop :=
  visited ≡ₚ map_to_list (bindings m).

(** [func (a *annotationsMap) String() string]: the strings a call may
    return. *)
Definition annotationsMap_String (a : annotationsMap) (out : string) : Prop :=
  exists visited, range_order (annotations a) visited /\ out = String_of visited.

(** ** More vocabulary *)

(** The keys the arguments of [l] name, in order. *)
Definition keys_named (l : list string) : list string :=
  omap (fun s => fst <$> key_value s) l.

(** The place of a step in [sign]: reference, descriptor, payload (read or
    built), passphrase, key, signature, then the print or the upload.  The
    two progress lines on stderr are not steps. *)
Definition step_number (ev : Event) : option nat :=
  match ev with
  | CallParseReference _ _ => Some 0
  | CallRemoteGet _ _ => Some 1
  | CallReadFile _ _ | CallPayload _ _ _ => Some 2
  | CallGetPass _ _ => Some 3
  | CallLoadPrivateKey _ _ _ => Some 4
  | CallEd25519Sign _ _ _ => Some 5
  | Stdout _ | CallUpload _ _ _ _ => Some 6
  | Stderr _ => None
  end.

Definition steps (tr : list Event) : list nat := omap step_number tr.

Definition is_file_read (ev : Event) : bool :=
  match ev with CallReadFile _ _ => true | _ => false end.

(** The step of [sign] that yields the payload: the file is read when an
    override path is given, the payload built otherwise. *)
Definition payload_step (E : Env) (payloadPath : string) (ann : gomap)
    (get : remote_Descriptor) : result bytes :=
  if String.eqb payloadPath "" then pkg_Payload E (Descriptor get) ann
  else ioutil_ReadFile E payloadPath.

(** The run [r] ended at step [last] with the error [e] that step returned:
    [e] is the result, the failing call is the last event, and the steps
    taken are those up to [last], none after. *)
Definition aborted (r : Exec unit) (e : error) (last : nat) : Prop :=
  outcome r = Fail e /\
  first_failure (trace r) = Some (e, []) /\
  steps (trace r) = seq 0 (S last).

(** [World.env 64] with the collaborator of step [n] failing. *)
Definition failing_at (n : nat) : Env :=
  let E := World.env 64 in
  {| name_ParseReference := fun s =>
       if Nat.eqb n 0 then failed (Errorf "could not parse reference")
       else name_ParseReference E s;
     remote_Get := fun ref =>
       if Nat.eqb n 1 then failed (Errorf "MANIFEST_UNKNOWN") else remote_Get E ref;
     ioutil_ReadFile := fun f =>
       if Nat.eqb n 2 then failed (Errorf "permission denied") else ioutil_ReadFile E f;
     pkg_Payload := fun d a =>
       if Nat.eqb n 2 then failed (Errorf "marshal") else pkg_Payload E d a;
     getPass := fun c =>
       if Nat.eqb n 3 then failed (Errorf "inappropriate ioctl for device")
       else getPass E c;
     pkg_LoadPrivateKey := fun k p =>
       if Nat.eqb n 4 then failed (Errorf "invalid pem block")
       else pkg_LoadPrivateKey E k p;
     ed25519_sign := ed25519_sign E;
     pkg_Uploaders := pkg_Uploaders E |}.

(** What was written to stderr in a run. *)
Fixpoint stderr (tr : list Event) : list string :=
  match tr with
  | [] => []
  | Stderr s :: tr' => s :: stderr tr'
  | _ :: tr' => stderr tr'
  end.

(** The characters of the base64 alphabet and the padding. *)
Definition is_upper (c : ascii) : bool :=
  (65 <=? nat_of_ascii c)%nat && (nat_of_ascii c <=? 90)%nat.

Definition is_base64 (c : ascii) : bool :=
  is_upper c || is_lower c || is_digit c ||
  Ascii.eqb c "+" || Ascii.eqb c "/" || Ascii.eqb c "=".

(** The characters a registry tag may hold among those [munge] can yield. *)
Definition is_tag_char (c : ascii) : bool :=
  is_lower c || is_digit c || Ascii.eqb c "-".

(** Every step of [sign] before the upload succeeds in [E]: the reference
    parses, the descriptor is fetched, the payload is read or built, the
    passphrase obtained and a key of [PrivateKeySize] bytes loaded. *)
Definition ready (E : Env) (keyPath imageRef payloadPath : string) (ann : gomap)
    (ref : Reference) (get : remote_Descriptor) (payload : bytes) (pk : PrivateKey) : Prop :=
  name_ParseReference E imageRef = ok ref /\
  remote_Get E ref = ok get /\
  (if String.eqb payloadPath "" then pkg_Payload E (Descriptor get) ann
   else ioutil_ReadFile E payloadPath) = ok payload /\
  (exists pass, getPass E false = ok pass /\ pkg_LoadPrivateKey E keyPath pass = ok pk) /\
  length pk = PrivateKeySize.

(** ** Runs of [sign], case by case *)

Ltac run := cbn [mbind mret Exec_bind Exec_ret call emit throw uploader_Upload
                 trace outcome fst snd app negb].

(** One goal per exit of [sign]: the result of every call is case-split in
    program order and its equation kept ([Hparse], [Hget], ...). *)
Ltac sign_cases :=
  unfold sign, ed25519_Sign; run;
  try match goal with
      | |- context [name_ParseReference ?E ?s] =>
          destruct (name_ParseReference E s) as [ref|?] eqn:Hparse
      end; run;
  try match goal with
      | |- context [remote_Get ?E ?r] =>
          destruct (remote_Get E r) as [get|?] eqn:Hget
      end; run;
  try match goal with
      | |- context [String.eqb ?p ""] =>
          destruct (String.eqb_spec p "") as [Hpath|Hpath]
      end; run;
  try match goal with
      | |- context [ioutil_ReadFile ?E ?p] =>
          destruct (ioutil_ReadFile E p) as [payload|?] eqn:Hread
      end; run;
  try match goal with
      | |- context [pkg_Payload ?E ?d ?a] =>
          destruct (pkg_Payload E d a) as [payload|?] eqn:Hbuild
      end; run;
  try match goal with
      | |- context [getPass ?E ?c] =>
          destruct (getPass E c) as [pass|?] eqn:Hpass
      end; run;
  try match goal with
      | |- context [pkg_LoadPrivateKey ?E ?k ?p] =>
          destruct (pkg_LoadPrivateKey E k p) as [pk|?] eqn:Hload
      end; run;
  try match goal with
      | |- context [Nat.eqb ?n PrivateKeySize] =>
          destruct (Nat.eqb_spec n PrivateKeySize) as [Hlen|Hlen]
      end; run;
  try match goal with
      | |- context [if negb ?b then _ else _] => is_var b; destruct b
      end; run;
  try match goal with
      | |- context [Upload ?u ?s ?p ?d] =>
          destruct (Upload u s p d) as [?|] eqn:Hup
      end; run.

(** Membership in the event list of one exit of [sign]. *)
Ltac in_trace H :=
  simpl in H;
  repeat match type of H with
         | _ \/ _ => destruct H as [H|H]
         | False => destruct H
         end;
  try discriminate H.

(** ** The model on concrete inputs *)

Example SplitN_kv : SplitN "a=b=c" "=" 2 = ["a"; "b=c"].
Proof. reflexivity. Qed.
Example SplitN_nokv : SplitN "abc" "=" 2 = ["abc"].
Proof. reflexivity. Qed.
Example SplitN_all : SplitN "a=b=c" "=" (-1) = ["a"; "b"; "c"].
Proof. reflexivity. Qed.
Example ReplaceAll_digest : ReplaceAll "sha256:abc123" ":" "-" = "sha256-abc123".
Proof. reflexivity. Qed.
Example ReplaceAll_long : ReplaceAll "aXYbXYXYc" "XY" "." = "a.b..c".
Proof. reflexivity. Qed.
Example base64_rfc4648 :
  map (fun s => EncodeToString (list_byte_of_string s)) [""; "f"; "fo"; "foo"; "foob"; "fooba"; "foobar"]
  = [""; "Zg=="; "Zm8="; "Zm9v"; "Zm9vYg=="; "Zm9vYmE="; "Zm9vYmFy"].
Proof. reflexivity. Qed.
Example sign_and_upload :
  let r := sign (World.env 64) "cosign.key" "gcr.io/proj/a:v1" true "" None World.accept in
  outcome r = Return tt /\
  uploads (trace r) = [Repository_Tag World.repo_a ("sha256-" +:+ World.hex64)] /\
  signed_messages (trace r) = [list_byte_of_string ("sha256:" +:+ World.hex64)] /\
  stdout (trace r) = [].
Proof. repeat split. Qed.
Example sign_bad_reference :
  sign (World.env 64) "cosign.key" "???" true "" None World.accept
  = ([CallParseReference "???" (failed (Errorf "could not parse reference: ???"))],
     Fail (Errorf "could not parse reference: ???")).
Proof. reflexivity. Qed.
Example Sign_usage :
  Sign (World.env 64) default_Flags ["gcr.io/proj/a:v1"] = ([], Fail ErrHelp) /\
  Sign (World.env 64)
       {| key := "cosign.key"; upload := true; payloadPath := "";
          flag_annotations := {| annotations := None |}; format := "compat" |} []
  = ([], Fail ErrHelp).
Proof. split; reflexivity. Qed.
Example Repository_Name_library :
  let hub := {| insecure := false; registry := "index.docker.io" |} in
  Tag_String (Repository_Tag {| Repository_Registry := hub; repository := "ubuntu" |} "sha256-abc")
  = "index.docker.io/library/ubuntu:sha256-abc" /\
  Tag_String (Repository_Tag {| Repository_Registry := hub; repository := "me/app" |} "sha256-abc")
  = "index.docker.io/me/app:sha256-abc" /\
  Tag_String (Repository_Tag World.repo_a "sha256-abc") = "gcr.io/proj/a:sha256-abc".
Proof. repeat split. Qed.
Example Itoa_3 : Itoa 3 = "3" /\ Itoa 0 = "0" /\ Itoa 64 = "64".
Proof. repeat split. Qed.

(** ** Facts about the string functions *)
Section single_byte_patterns.

Variable a : ascii.

Lemma HasPrefix_byte c s : HasPrefix (String c s) (String a "") = Ascii.eqb c a.
Proof. simpl. destruct (Ascii.eqb c a); [destruct s|]; reflexivity. Qed.

Lemma Index_byte_cons c s :
  Index (String c s) (String a "") = if Ascii.eqb c a then Some 0 else S <$> Index s (String a "").
Proof.
  change (Index (String c s) (String a ""))
    with (if HasPrefix (String c s) (String a "") then Some 0 else S <$> Index s (String a "")).
  now rewrite HasPrefix_byte.
Qed.

Lemma Index_byte_nil : Index "" (String a "") = None.
Proof. reflexivity. Qed.

(** [Index] finds the first occurrence: nothing before it, the byte at it. *)
Lemma Index_byte_Some s j :
  Index s (String a "") = Some j ->
  s = slice_to s j +:+ String a (slice_from s (S j)) /\
  Index (slice_to s j) (String a "") = None /\
  String.length (slice_from s (S j)) < String.length s.
Proof.
  revert j. induction s as [|c s IH]; intros j.
  - rewrite Index_byte_nil. discriminate.
  - rewrite Index_byte_cons. destruct (Ascii.eqb_spec c a) as [->|Hne].
    + intros [= <-]. simpl. repeat split. lia.
    + destruct (Index s (String a "")) as [i|] eqn:Hi; [|discriminate].
      intros [= <-]. destruct (IH i eq_refl) as (Hs & Hnone & Hlen).
      change (slice_to (String c s) (S i)) with (String c (slice_to s i)).
      change (slice_from (String c s) (S (S i))) with (slice_from s (S i)).
      cbn [String.append String.length].
      repeat split.
      * change (String c s = String c (slice_to s i +:+ String a (slice_from s (S i)))).
        now rewrite <- Hs.
      * rewrite Index_byte_cons. destruct (Ascii.eqb_spec c a); [contradiction|].
        now rewrite Hnone.
      * lia.
Qed.

Lemma Index_byte_None s :
  Index s (String a "") = None <-> all_string (fun c => negb (Ascii.eqb c a)) s = true.
Proof.
  induction s as [|c s IH]; [easy|].
  rewrite Index_byte_cons. simpl.
  destruct (Ascii.eqb c a); simpl; [easy|].
  rewrite <- IH. destruct (Index s (String a "")); easy.
Qed.

Lemma Index_byte_append_None s t :
  Index s (String a "") = None -> Index (s +:+ String a t) (String a "") = Some (String.length s).
Proof.
  induction s as [|c s IH].
  - intros _. change ("" +:+ String a t) with (String a t).
    rewrite Index_byte_cons. now rewrite Ascii.eqb_refl.
  - change (String c s +:+ String a t) with (String c (s +:+ String a t)).
    rewrite !Index_byte_cons. destruct (Ascii.eqb c a); [discriminate|].
    destruct (Index s (String a "")) eqn:Hi; [discriminate|]. intros _.
    now rewrite IH.
Qed.

Variable b : ascii.

Lemma subst_same : subst a b a = b.
Proof. unfold subst. now rewrite Ascii.eqb_refl. Qed.

Lemma map_subst_absent s : Index s (String a "") = None -> map_string (subst a b) s = s.
Proof.
  induction s as [|c s IH]; [easy|].
  rewrite Index_byte_cons.
  change (map_string (subst a b) (String c s))
    with (String (subst a b c) (map_string (subst a b) s)).
  unfold subst at 1.
  destruct (Ascii.eqb c a); [discriminate|].
  destruct (Index s (String a "")); [discriminate|]. intros _. now rewrite IH.
Qed.

Lemma map_subst_append s t :
  map_string (subst a b) (s +:+ t) = map_string (subst a b) s +:+ map_string (subst a b) t.
Proof. induction s as [|c s IH]; simpl; [easy|]. now rewrite IH. Qed.

Lemma slice_from_length s m : String.length (slice_from s m) <= String.length s.
Proof.
  revert m. induction s as [|c s IH]; intros [|m]; simpl; try lia.
  specialize (IH m). lia.
Qed.

(** The replacement loop, given enough fuel, rewrites byte by byte. *)
Lemma Replace_loop_byte n s :
  String.length s <= n ->
  Replace_loop n s (String a "") (String b "") = map_string (subst a b) s.
Proof.
  revert s. induction n as [|n IH]; intros s Hlen.
  - destruct s; simpl in *; [reflexivity | lia].
  - cbn [Replace_loop]. destruct (Index s (String a "")) as [j|] eqn:Hj.
    + destruct (Index_byte_Some _ _ Hj) as (Hs & Hnone & Hlt).
      rewrite Hs at 3. rewrite map_subst_append.
      rewrite (map_subst_absent _ Hnone).
      change (map_string (subst a b) (String a (slice_from s (S j))))
        with (String (subst a b a) (map_string (subst a b) (slice_from s (S j)))).
      rewrite subst_same, <- IH by lia.
      replace (j + String.length (String a "")) with (S j) by (simpl; lia).
      reflexivity.
    + now rewrite map_subst_absent.
Qed.

Lemma ReplaceAll_byte s :
  a <> b -> ReplaceAll s (String a "") (String b "") = map_string (subst a b) s.
Proof.
  intros Hab. unfold ReplaceAll. simpl String.eqb.
  destruct (Ascii.eqb_spec a b) as [|_]; [contradiction|].
  now apply Replace_loop_byte.
Qed.

End single_byte_patterns.

(** ** Runs of [sign] *)

(** [first_failure] finds the first call that returned an error. *)
Lemma first_failure_Some tr e after :
  first_failure tr = Some (e, after) <->
  exists before ev,
    tr = before ++ ev :: after /\ failure ev = Some e /\
    Forall (fun ev' => failure ev' = None) before.
Proof.
  split.
  - revert e after. induction tr as [|ev tr IH]; intros e after; [discriminate|].
    simpl. destruct (failure ev) as [e'|] eqn:Hev.
    + intros [= <- <-]. exists [], ev. auto.
    + intros H. destruct (IH _ _ H) as (before & ev' & -> & Hf & Hall).
      exists (ev :: before), ev'. auto.
  - intros (before & ev & -> & Hf & Hall).
    induction Hall as [|ev' before Hev' _ IH]; simpl.
    + now rewrite Hf.
    + now rewrite Hev'.
Qed.

(** C10. Reference resolution comes first in every run of [sign], whatever
    the payload path and the upload flag: the first event is the parsing of
    the image reference and, when that succeeds, the second is the fetch of
    the remote descriptor; every other step comes after these two.  When
    either fails, the run ends there with that error: no payload file is
    read, no passphrase asked, no key loaded, nothing signed. *)
Theorem sign_resolves_reference_first
    E keyPath imageRef upload payloadPath ann uploader :
  let r := sign E keyPath imageRef upload payloadPath ann uploader in
  exists rest,
    trace r = CallParseReference imageRef (name_ParseReference E imageRef) :: rest /\
    match name_ParseReference E imageRef with
    | failed e => rest = [] /\ outcome r = Fail e
    | ok ref =>
        exists rest',
          rest = CallRemoteGet ref (remote_Get E ref) :: rest' /\
          Forall (fun ev => after_resolution ev = true) rest' /\
          match remote_Get E ref with
          | failed e => rest' = [] /\ outcome r = Fail e
          | ok _ => True
          end
    end.
Proof.
  intros r; subst r. sign_cases;
    eexists; (split; [reflexivity|]);
    try (split; reflexivity);
    eexists; (split; [reflexivity|]); split;
    try (split; reflexivity); repeat constructor.
Qed.

(** C8. A failing step ends the run.  Whichever step the environment makes
    fail first (parsing the reference, fetching the descriptor, reading or
    building the payload, asking for the passphrase, loading the key,
    uploading), [sign] returns exactly the error of that step, the failing
    call is the last thing that happens, and the steps after it are not
    taken: no upload follows the failure of an earlier step.  [sign] returns
    no error of its own.  The uploader is called at most once, as the very
    last step, with the signature that was made of the payload it is given:
    the pair goes out in one call or not at all. *)
Theorem sign_aborts_at_first_failure
    E keyPath imageRef upload payloadPath ann uploader :
  let r := sign E keyPath imageRef upload payloadPath ann uploader in
  (forall e,
      name_ParseReference E imageRef = failed e ->
      aborted r e 0 /\ uploads (trace r) = []) /\
  (forall ref e,
      name_ParseReference E imageRef = ok ref ->
      remote_Get E ref = failed e ->
      aborted r e 1 /\ uploads (trace r) = []) /\
  (forall ref get e,
      name_ParseReference E imageRef = ok ref ->
      remote_Get E ref = ok get ->
      payload_step E payloadPath ann get = failed e ->
      aborted r e 2 /\ uploads (trace r) = []) /\
  (forall ref get payload e,
      name_ParseReference E imageRef = ok ref ->
      remote_Get E ref = ok get ->
      payload_step E payloadPath ann get = ok payload ->
      getPass E false = failed e ->
      aborted r e 3 /\ uploads (trace r) = []) /\
  (forall ref get payload pass e,
      name_ParseReference E imageRef = ok ref ->
      remote_Get E ref = ok get ->
      payload_step E payloadPath ann get = ok payload ->
      getPass E false = ok pass ->
      pkg_LoadPrivateKey E keyPath pass = failed e ->
      aborted r e 4 /\ uploads (trace r) = []) /\
  (forall ref get payload pk e,
      ready E keyPath imageRef payloadPath ann ref get payload pk ->
      upload = true ->
      Upload uploader (ed25519_sign E pk payload) payload
             (Repository_Tag (Context ref) (munge (Digest_ (Descriptor get)))) = Some e ->
      aborted r e 6 /\
      uploads (trace r) = [Repository_Tag (Context ref) (munge (Digest_ (Descriptor get)))]) /\
  match first_failure (trace r) with
  | Some (e, after) => after = [] /\ outcome r = Fail e
  | None => forall e, outcome r <> Fail e
  end /\
  uploads (removelast (trace r)) = [] /\
  forall signature payload dst res,
    In (CallUpload signature payload dst res) (trace r) ->
    exists pk, In (CallEd25519Sign pk payload (Some signature)) (trace r).
Proof.
  intros r; subst r. unfold ready, payload_step, aborted. sign_cases.
  all: do 6 (split;
    [ intros; repeat match goal with
                     | H : _ /\ _ |- _ => destruct H
                     | H : exists _, _ |- _ => destruct H
                     end;
      try congruence;
      repeat (simplify_eq;
              match goal with
              | H1 : ?x = _, H2 : ?x = _ |- _ => rewrite H1 in H2
              end);
      simplify_eq; repeat split; try reflexivity; try congruence | ]).
  all: (split; [|split]);
    try (cbn; split; reflexivity);
    try (cbn; intros; discriminate);
    try reflexivity;
    intros signature payload' dst res H; in_trace H;
    injection H as <- <- <- <-; eexists; simpl; eauto 10.
Qed.

Lemma sign_aborts_at_first_failure_witness :
  let run E path up := sign E "cosign.key" "gcr.io/proj/a:v1" true path None up in
  let dst := Repository_Tag World.repo_a ("sha256-" +:+ World.hex64) in
  (name_ParseReference (failing_at 0) "gcr.io/proj/a:v1"
     = failed (Errorf "could not parse reference") /\
   aborted (run (failing_at 0) "" World.accept) (Errorf "could not parse reference") 0) /\
  aborted (run (failing_at 1) "" World.accept) (Errorf "MANIFEST_UNKNOWN") 1 /\
  aborted (run (failing_at 2) "payload.json" World.accept) (Errorf "permission denied") 2 /\
  aborted (run (failing_at 2) "" World.accept) (Errorf "marshal") 2 /\
  aborted (run (failing_at 3) "" World.accept) (Errorf "inappropriate ioctl for device") 3 /\
  aborted (run (failing_at 4) "" World.accept) (Errorf "invalid pem block") 4 /\
  (Upload World.reject (list_byte_of_string "sig")
          (list_byte_of_string ("sha256:" +:+ World.hex64)) dst = Some (Errorf "denied") /\
   aborted (run (World.env 64) "" World.reject) (Errorf "denied") 6 /\
   uploads (trace (run (World.env 64) "" World.reject)) = [dst]).
Proof.
  intros run dst.
  pose (a := TagRef (Repository_Tag World.repo_a "v1")).
  destruct (sign_aborts_at_first_failure (failing_at 0) "cosign.key" "gcr.io/proj/a:v1"
              true "" None World.accept) as (H0 & _).
  destruct (sign_aborts_at_first_failure (failing_at 1) "cosign.key" "gcr.io/proj/a:v1"
              true "" None World.accept) as (_ & H1 & _).
  destruct (sign_aborts_at_first_failure (failing_at 2) "cosign.key" "gcr.io/proj/a:v1"
              true "payload.json" None World.accept) as (_ & _ & H2 & _).
  destruct (sign_aborts_at_first_failure (failing_at 2) "cosign.key" "gcr.io/proj/a:v1"
              true "" None World.accept) as (_ & _ & H2' & _).
  destruct (sign_aborts_at_first_failure (failing_at 3) "cosign.key" "gcr.io/proj/a:v1"
              true "" None World.accept) as (_ & _ & _ & H3 & _).
  destruct (sign_aborts_at_first_failure (failing_at 4) "cosign.key" "gcr.io/proj/a:v1"
              true "" None World.accept) as (_ & _ & _ & _ & H4 & _).
  destruct (sign_aborts_at_first_failure (World.env 64) "cosign.key" "gcr.io/proj/a:v1"
              true "" None World.reject) as (_ & _ & _ & _ & _ & H6 & _).
  split; [split; [reflexivity|exact (proj1 (H0 _ eq_refl))]|].
  split; [exact (proj1 (H1 a _ eq_refl eq_refl))|].
  split; [exact (proj1 (H2 a World.desc _ eq_refl eq_refl eq_refl))|].
  split; [exact (proj1 (H2' a World.desc _ eq_refl eq_refl eq_refl))|].
  split; [exact (proj1 (H3 a World.desc (list_byte_of_string ("sha256:" +:+ World.hex64)) _
                          eq_refl eq_refl eq_refl eq_refl))|].
  split; [exact (proj1 (H4 a World.desc (list_byte_of_string ("sha256:" +:+ World.hex64))
                          (list_byte_of_string "secret") _
                          eq_refl eq_refl eq_refl eq_refl eq_refl))|].
  split; [reflexivity|].
  apply (H6 a World.desc (list_byte_of_string ("sha256:" +:+ World.hex64)) (World.seed 64));
    [|reflexivity|reflexivity].
  unfold ready. repeat split.
  exists (list_byte_of_string "secret"). split; reflexivity.
Defined.

(** C4. With [upload] false the uploader is never called.  A run that
    succeeds ends with the signing call followed by one line on stdout, the
    base64 text of the signature just made; nothing else is written to
    stdout. *)
Theorem display_only_run E keyPath imageRef payloadPath ann uploader :
  let r := sign E keyPath imageRef false payloadPath ann uploader in
  uploads (trace r) = [] /\
  (outcome r = Return tt ->
   exists before pk payload signature,
     trace r = before ++ [CallEd25519Sign pk payload (Some signature);
                          Stdout (EncodeToString signature +:+ newline)] /\
     stdout (trace r) = [EncodeToString signature +:+ newline]).
Proof.
  intros r; subst r. sign_cases; (split; [reflexivity|]);
    try discriminate; intros _.
  - eexists [_; _; _; _; _], _, _, _. split; reflexivity.
  - eexists [_; _; _; _; _; _], _, _, _. split; reflexivity.
Qed.

Lemma display_only_run_witness :
  let r := sign (World.env 64) "cosign.key" "gcr.io/proj/a:v1" false "" None World.accept in
  outcome r = Return tt /\
  uploads (trace r) = [] /\
  stdout (trace r) = ["c2ln" +:+ newline].
Proof.
  intros r.
  destruct (display_only_run (World.env 64) "cosign.key" "gcr.io/proj/a:v1" "" None World.accept)
    as [Hno Hshown].
  split; [reflexivity|]. split; [exact Hno|].
  destruct (Hshown eq_refl) as (before & pk & payload & signature & _ & Hout).
  reflexivity.
Defined.

(** C5. With an override payload path the payload builder is never called:
    every message signed, and every payload uploaded, is the content of the
    file as read, whatever it holds.  When the steps before signing succeed,
    that content is signed, once. *)
Theorem override_payload_is_signed_verbatim
    E keyPath imageRef upload payloadPath ann uploader :
  payloadPath <> "" ->
  let r := sign E keyPath imageRef upload payloadPath ann uploader in
  Forall (fun ev => is_payload_build ev = false) (trace r) /\
  (forall m, In m (signed_messages (trace r)) -> ioutil_ReadFile E payloadPath = ok m) /\
  (forall signature p dst res,
      In (CallUpload signature p dst res) (trace r) ->
      ioutil_ReadFile E payloadPath = ok p) /\
  (forall ref get raw pass pk,
      name_ParseReference E imageRef = ok ref ->
      remote_Get E ref = ok get ->
      ioutil_ReadFile E payloadPath = ok raw ->
      getPass E false = ok pass ->
      pkg_LoadPrivateKey E keyPath pass = ok pk ->
      signed_messages (trace r) = [raw]).
Proof.
  intros Hne r; subst r. sign_cases; try contradiction;
    (split; [repeat constructor|split; [|split]]).
  all: try (intros m H; in_trace H; now subst).
  all: try (intros signature p dst res H; in_trace H; now injection H as <- <- <- <-).
  all: intros ref' get' raw pass' pk' H1 H2 H3 H4 H5; simpl; congruence.
Qed.

Lemma override_payload_is_signed_verbatim_witness :
  let r := sign (World.env 64) "cosign.key" "gcr.io/proj/a:v1" true "payload.json" None World.accept in
  "payload.json" <> "" /\
  signed_messages (trace r) = [list_byte_of_string "hello"] /\
  Forall (fun ev => is_payload_build ev = false) (trace r).
Proof.
  intros r.
  assert (Hne : "payload.json" <> "") by discriminate.
  destruct (override_payload_is_signed_verbatim (World.env 64) "cosign.key"
              "gcr.io/proj/a:v1" true "payload.json" None World.accept Hne)
    as (Hnobuild & _ & _ & Hsigned).
  split; [exact Hne|]. split; [|exact Hnobuild].
  eapply Hsigned; reflexivity.
Defined.

(** ** The publication address *)

Lemma munge_bytewise h : munge h = map_string (subst ":" "-") (Hash_String h).
Proof. unfold munge. now apply (ReplaceAll_byte ":" "-"). Qed.

Lemma map_string_fixed (p : ascii -> bool) (f : ascii -> ascii) s :
  (forall c, p c = true -> f c = c) ->
  all_string p s = true -> map_string f s = s.
Proof.
  intros Hf. induction s as [|c s IH]; simpl; [easy|].
  intros [Hc Hs]%andb_prop. now rewrite (Hf c Hc), IH.
Qed.

Lemma all_string_weaken (p q : ascii -> bool) s :
  (forall c, p c = true -> q c = true) ->
  all_string p s = true -> all_string q s = true.
Proof.
  intros Hpq. induction s as [|c s IH]; simpl; [easy|].
  intros [Hc Hs]%andb_prop. now rewrite (Hpq c Hc), IH.
Qed.

(** Letters and digits are neither [':'] nor ['-']. *)
Lemma alnum_not_separator a b :
  (a = ":" \/ a = "-")%char ->
  forall c, is_lower c || is_digit c = true -> subst a b c = c.
Proof.
  intros Ha c Hc. unfold subst. destruct (Ascii.eqb_spec c a) as [->|]; [|reflexivity].
  destruct Ha as [-> | ->]; discriminate Hc.
Qed.

Lemma hex_is_alnum c : is_hex c = true -> is_lower c || is_digit c = true.
Proof.
  unfold is_hex, is_lower. destruct (is_digit c); [now rewrite orb_true_r|].
  rewrite orb_false_r. simpl.
  intros [H1 H2]%andb_prop. rewrite H1. simpl.
  apply Nat.leb_le in H2. apply Nat.leb_le. lia.
Qed.

Lemma digest_form_alnum h :
  digest_form h = true ->
  all_string (fun c => is_lower c || is_digit c) (Algorithm h) = true /\
  all_string (fun c => is_lower c || is_digit c) (Hex h) = true.
Proof.
  unfold digest_form. intros [[[_ Ha]%andb_prop _]%andb_prop Hh]%andb_prop.
  split; [exact Ha|]. revert Hh. apply all_string_weaken, hex_is_alnum.
Qed.

(** The destination of every upload of a run of [sign]. *)
Lemma sign_upload_destination
    E keyPath imageRef upload payloadPath ann uploader dst :
  In dst (uploads (trace (sign E keyPath imageRef upload payloadPath ann uploader))) ->
  exists ref get,
    name_ParseReference E imageRef = ok ref /\
    remote_Get E ref = ok get /\
    dst = Repository_Tag (Context ref) (munge (Digest_ (Descriptor get))).
Proof.
  sign_cases; intros H; in_trace H; subst dst; eauto.
Qed.

(** C7. [munge] rewrites the separator and nothing else: byte for byte, the
    tag is the digest string with [':'] turned into ['-']
    ([sha256:abc123] gives [sha256-abc123]).  Every upload of [sign] goes to
    that tag of the repository of the image reference that was signed. *)
Theorem address_is_munged_digest_in_same_repository :
  (forall h, munge h = map_string (subst ":" "-") (Hash_String h)) /\
  munge {| Algorithm := "sha256"; Hex := "abc123" |} = "sha256-abc123" /\
  forall E keyPath imageRef upload payloadPath ann uploader dst,
    In dst (uploads (trace (sign E keyPath imageRef upload payloadPath ann uploader))) ->
    exists ref get,
      name_ParseReference E imageRef = ok ref /\
      remote_Get E ref = ok get /\
      Tag_Repository dst = Context ref /\
      TagStr dst = munge (Digest_ (Descriptor get)).
Proof.
  split; [exact munge_bytewise|]. split; [reflexivity|].
  intros E keyPath imageRef upload payloadPath ann uploader dst H.
  destruct (sign_upload_destination _ _ _ _ _ _ _ _ H) as (ref & get & Hp & Hg & ->).
  exists ref, get. repeat split; assumption.
Qed.

Lemma address_is_munged_digest_in_same_repository_witness :
  let r := sign (World.env 64) "cosign.key" "gcr.io/proj/b:v1" true "" None World.accept in
  let dst := Repository_Tag World.repo_b ("sha256-" +:+ World.hex64) in
  In dst (uploads (trace r)) /\
  exists ref get,
    name_ParseReference (World.env 64) "gcr.io/proj/b:v1" = ok ref /\
    remote_Get (World.env 64) ref = ok get /\
    Tag_Repository dst = Context ref /\
    TagStr dst = munge (Digest_ (Descriptor get)).
Proof.
  intros r dst.
  assert (Hin : In dst (uploads (trace r))) by (left; reflexivity).
  split; [exact Hin|].
  destruct address_is_munged_digest_in_same_repository as (_ & _ & Hdst).
  exact (Hdst (World.env 64) "cosign.key" "gcr.io/proj/b:v1" true "" None World.accept dst Hin).
Defined.

(** C6. For a digest in [algorithm:hex] form the tag is the algorithm name,
    one ['-'] (the rewritten separator) and the hex value, and putting [':']
    back for ['-'] gives the digest string again, exactly. *)
Theorem munge_round_trip h :
  digest_form h = true ->
  munge h = Algorithm h +:+ "-" +:+ Hex h /\
  unmunge (munge h) = Hash_String h.
Proof.
  intros [Ha Hh]%digest_form_alnum.
  assert (Hm : munge h = Algorithm h +:+ "-" +:+ Hex h).
  { rewrite munge_bytewise. unfold Hash_String.
    rewrite map_subst_append.
    change (map_string (subst ":" "-") (":" +:+ Hex h))
      with (String (subst ":" "-" ":") (map_string (subst ":" "-") (Hex h))).
    rewrite subst_same.
    rewrite (map_string_fixed _ _ _ (alnum_not_separator ":" "-" (or_introl eq_refl)) Ha).
    rewrite (map_string_fixed _ _ _ (alnum_not_separator ":" "-" (or_introl eq_refl)) Hh).
    reflexivity. }
  split; [exact Hm|].
  rewrite Hm. unfold unmunge, Hash_String.
  rewrite (ReplaceAll_byte "-" ":") by discriminate.
  rewrite map_subst_append.
  change (map_string (subst "-" ":") ("-" +:+ Hex h))
    with (String (subst "-" ":" "-") (map_string (subst "-" ":") (Hex h))).
  rewrite subst_same.
  rewrite (map_string_fixed _ _ _ (alnum_not_separator "-" ":" (or_intror eq_refl)) Ha).
  rewrite (map_string_fixed _ _ _ (alnum_not_separator "-" ":" (or_intror eq_refl)) Hh).
  reflexivity.
Qed.

Lemma munge_round_trip_witness :
  digest_form World.sha = true /\
  munge World.sha = "sha256-" +:+ World.hex64 /\
  unmunge (munge World.sha) = "sha256:" +:+ World.hex64.
Proof.
  split; [reflexivity|]. exact (munge_round_trip World.sha eq_refl).
Defined.

(** C1. The publication tag is a function of the digest string alone: two
    runs of [sign] whose resolved descriptors have equal digest strings
    upload to tags with the same [TagStr], whatever else differs between the
    runs (environment, key, image reference, flags, uploader).  The tag is
    scoped to the repository of the image reference, so the two destinations
    are the same [name.Tag] when the repositories are the same too. *)
Theorem publication_tag_is_digest_within_repository
    E1 keyPath1 imageRef1 upload1 payloadPath1 ann1 uploader1 ref1 get1 dst1
    E2 keyPath2 imageRef2 upload2 payloadPath2 ann2 uploader2 ref2 get2 dst2 :
  name_ParseReference E1 imageRef1 = ok ref1 -> remote_Get E1 ref1 = ok get1 ->
  name_ParseReference E2 imageRef2 = ok ref2 -> remote_Get E2 ref2 = ok get2 ->
  In dst1 (uploads (trace (sign E1 keyPath1 imageRef1 upload1 payloadPath1 ann1 uploader1))) ->
  In dst2 (uploads (trace (sign E2 keyPath2 imageRef2 upload2 payloadPath2 ann2 uploader2))) ->
  Hash_String (Digest_ (Descriptor get1)) = Hash_String (Digest_ (Descriptor get2)) ->
  TagStr dst1 = TagStr dst2 /\
  (Context ref1 = Context ref2 -> dst1 = dst2).
Proof.
  intros Hp1 Hg1 Hp2 Hg2 H1 H2 Hd.
  destruct (sign_upload_destination _ _ _ _ _ _ _ _ H1) as (r1 & g1 & Hp1' & Hg1' & ->).
  destruct (sign_upload_destination _ _ _ _ _ _ _ _ H2) as (r2 & g2 & Hp2' & Hg2' & ->).
  assert (r1 = ref1) as -> by congruence. assert (g1 = get1) as -> by congruence.
  assert (r2 = ref2) as -> by congruence. assert (g2 = get2) as -> by congruence.
  assert (Hm : munge (Digest_ (Descriptor get1)) = munge (Digest_ (Descriptor get2)))
    by (unfold munge; now rewrite Hd).
  split.
  - exact Hm.
  - intros ->. now rewrite Hm.
Qed.

Lemma publication_tag_is_digest_within_repository_witness :
  let E := World.env 64 in
  let a := TagRef (Repository_Tag World.repo_a "v1") in
  let b := TagRef (Repository_Tag World.repo_b "v1") in
  let tag := "sha256-" +:+ World.hex64 in
  In (Repository_Tag World.repo_a tag)
     (uploads (trace (sign E "cosign.key" "gcr.io/proj/a:v1" true "" None World.accept))) /\
  In (Repository_Tag World.repo_b tag)
     (uploads (trace (sign E "other.key" "gcr.io/proj/b:v1" true "payload.json" None World.reject))) /\
  TagStr (Repository_Tag World.repo_a tag) = TagStr (Repository_Tag World.repo_b tag).
Proof.
  intros E a b tag.
  assert (H1 : In (Repository_Tag World.repo_a tag)
     (uploads (trace (sign E "cosign.key" "gcr.io/proj/a:v1" true "" None World.accept))))
    by (left; reflexivity).
  assert (H2 : In (Repository_Tag World.repo_b tag)
     (uploads (trace (sign E "other.key" "gcr.io/proj/b:v1" true "payload.json" None World.reject))))
    by (left; reflexivity).
  split; [exact H1|]. split; [exact H2|].
  exact (proj1 (publication_tag_is_digest_within_repository
                  E "cosign.key" "gcr.io/proj/a:v1" true "" None World.accept a World.desc _
                  E "other.key" "gcr.io/proj/b:v1" true "payload.json" None World.reject b World.desc _
                  eq_refl eq_refl eq_refl eq_refl H1 H2 eq_refl)).
Defined.

(** The same image held by two repositories resolves to the same digest:
    its signature goes to the same tag, of the one repository or of the
    other. *)
Lemma equal_digests_different_addresses :
  let E := World.env 64 in
  let r1 := sign E "cosign.key" "gcr.io/proj/a:v1" true "" None World.accept in
  let r2 := sign E "cosign.key" "gcr.io/proj/b:v1" true "" None World.accept in
  let tag := "sha256-" +:+ World.hex64 in
  (exists ref1 ref2 get1 get2,
      name_ParseReference E "gcr.io/proj/a:v1" = ok ref1 /\ remote_Get E ref1 = ok get1 /\
      name_ParseReference E "gcr.io/proj/b:v1" = ok ref2 /\ remote_Get E ref2 = ok get2 /\
      Hash_String (Digest_ (Descriptor get1)) = Hash_String (Digest_ (Descriptor get2))) /\
  uploads (trace r1) = [Repository_Tag World.repo_a tag] /\
  uploads (trace r2) = [Repository_Tag World.repo_b tag] /\
  uploads (trace r1) <> uploads (trace r2).
Proof.
  intros E r1 r2 tag. split; [|split; [|split]].
  - eexists _, _, _, _. repeat split; reflexivity.
  - reflexivity.
  - reflexivity.
  - discriminate.
Qed.

(** ** The signing step *)

(** C2, as the code has it.  The signing step has no error result.  A key
    the loader rejects ends the run with the loader's error before anything
    is signed.  A key that reaches [ed25519.Sign] is the key the loader
    returned, byte for byte; when it has the 64 bytes of a private key the
    call yields a signature, and otherwise it panics: the run ends in that
    panic, not in a returned error, with nothing printed and nothing
    uploaded. *)
Theorem signing_step_has_no_error_result
    E keyPath imageRef upload payloadPath ann uploader :
  let r := sign E keyPath imageRef upload payloadPath ann uploader in
  (forall pk message res,
      In (CallEd25519Sign pk message res) (trace r) ->
      (exists pass, In (CallLoadPrivateKey keyPath pass (ok pk)) (trace r)) /\
      (length pk = PrivateKeySize -> res = Some (ed25519_sign E pk message)) /\
      (length pk <> PrivateKeySize ->
         res = None /\
         outcome r = Panic ("ed25519: bad private key length: " +:+ Itoa (length pk)) /\
         stdout (trace r) = [] /\ uploads (trace r) = [])) /\
  (forall pass e,
      In (CallLoadPrivateKey keyPath pass (failed e)) (trace r) ->
      outcome r = Fail e /\ signing_keys (trace r) = []) /\
  (forall e, outcome r = Fail e -> exists after, first_failure (trace r) = Some (e, after)).
Proof.
  intros r; subst r. sign_cases; (split; [|split]).
  all: try (intros pk' message res H; in_trace H;
            injection H as <- <- <-;
            (split; [eexists; simpl; eauto 10|]);
            (split; [intros; try reflexivity; contradiction|]);
            intros; try contradiction; repeat split; reflexivity).
  all: try (intros pass' e' H; in_trace H; injection H as <- <-; split; reflexivity).
  all: try (intros e' [= <-]; eexists; reflexivity).
  all: intros e' H; discriminate H.
Qed.

Lemma signing_step_has_no_error_result_witness :
  let r := sign (World.env 3) "cosign.key" "gcr.io/proj/a:v1" true "" None World.accept in
  let message := list_byte_of_string (Hash_String World.sha) in
  In (CallEd25519Sign (World.seed 3) message None) (trace r) /\
  length (World.seed 3) <> PrivateKeySize /\
  outcome r = Panic "ed25519: bad private key length: 3" /\
  stdout (trace r) = [] /\ uploads (trace r) = [].
Proof.
  intros r message.
  assert (Hin : In (CallEd25519Sign (World.seed 3) message None) (trace r))
    by (do 5 right; left; reflexivity).
  assert (Hlen : length (World.seed 3) <> PrivateKeySize) by discriminate.
  destruct (signing_step_has_no_error_result (World.env 3) "cosign.key"
              "gcr.io/proj/a:v1" true "" None World.accept) as (Hsign & _ & _).
  destruct (Hsign _ _ _ Hin) as (_ & _ & Hbad).
  destruct (Hbad Hlen) as (_ & Hout & Hstd & Hup).
  repeat split; assumption.
Defined.

(** C2, as stated, fails: a key of three bytes reaches the signing step and
    the run panics; no error is returned. *)
Lemma short_key_panics :
  let r := sign (World.env 3) "cosign.key" "gcr.io/proj/a:v1" true "" None World.accept in
  signing_keys (trace r) = [World.seed 3] /\
  length (World.seed 3) <> PrivateKeySize /\
  outcome r = Panic "ed25519: bad private key length: 3" /\
  forall e, outcome r <> Fail e.
Proof.
  intros r. repeat split; discriminate.
Qed.

(** ** The format selector *)

(** C3, as the code has it.  An unregistered format selector makes [Sign]
    fail before any step is taken: nothing is resolved, built, asked for,
    loaded or signed.  The error is the unsupported-format error when a key
    path is given and there is exactly one argument; the two usage checks
    come first, and when one of them fails the error is [flag.ErrHelp]. *)
Theorem unregistered_format_fails_before_any_step E f args :
  pkg_Uploaders E !! format f = None ->
  trace (Sign E f args) = [] /\
  (key f <> "" -> length args = 1 ->
   outcome (Sign E f args) = Fail (Errorf ("unsupported format flag: " +:+ format f))) /\
  (key f = "" \/ length args <> 1 -> outcome (Sign E f args) = Fail ErrHelp).
Proof.
  intros Hfmt. unfold Sign. rewrite Hfmt.
  destruct (String.eqb_spec (key f) "") as [Hk|Hk];
    destruct (Nat.eqb_spec (length args) 1) as [Hn|Hn]; cbn;
    repeat split; intros; try reflexivity; try contradiction; tauto.
Qed.

Lemma unregistered_format_fails_before_any_step_witness :
  let E := World.env 64 in
  let f := {| key := "cosign.key"; upload := true; payloadPath := "";
              flag_annotations := {| annotations := None |}; format := "nonexistent" |} in
  pkg_Uploaders E !! format f = None /\
  trace (Sign E f ["gcr.io/proj/a:v1"]) = [] /\
  outcome (Sign E f ["gcr.io/proj/a:v1"]) = Fail (Errorf "unsupported format flag: nonexistent").
Proof.
  intros E f.
  assert (Hfmt : pkg_Uploaders E !! format f = None) by reflexivity.
  destruct (unregistered_format_fails_before_any_step E f ["gcr.io/proj/a:v1"] Hfmt)
    as (Htr & Hout & _).
  split; [exact Hfmt|]. split; [exact Htr|].
  apply Hout; [discriminate | reflexivity].
Defined.

(** C3, as stated, fails: without a key path the unregistered format is
    never looked at and the error is [flag.ErrHelp]. *)
Lemma missing_key_masks_unsupported_format :
  let E := World.env 64 in
  let f := {| key := ""; upload := true; payloadPath := "";
              flag_annotations := {| annotations := None |}; format := "nonexistent" |} in
  pkg_Uploaders E !! format f = None /\
  Sign E f ["gcr.io/proj/a:v1"] = ([], Fail ErrHelp) /\
  outcome (Sign E f ["gcr.io/proj/a:v1"]) <> Fail (Errorf ("unsupported format flag: " +:+ format f)).
Proof.
  intros E f. split; [reflexivity|]. split; [reflexivity|]. discriminate.
Qed.

(** ** The annotation flag *)

Lemma SplitN_key_value s :
  SplitN s "=" 2 = match key_value s with
                   | Some (k, v) => [k; v]
                   | None => [s]
                   end.
Proof.
  change (SplitN s "=" 2) with (genSplit 1 s "=").
  unfold key_value. cbn [genSplit].
  destruct (Index s "=") as [m|]; [|reflexivity].
  now replace (m + String.length "=") with (S m) by (simpl; lia).
Qed.

Lemma key_value_Some s k v :
  key_value s = Some (k, v) -> s = k +:+ "=" +:+ v /\ Contains k "=" = false.
Proof.
  unfold key_value, Contains. destruct (Index s "=") as [m|] eqn:Hm; [|discriminate].
  intros [= <- <-]. destruct (Index_byte_Some "=" _ _ Hm) as (Hs & Hnone & _).
  split; [exact Hs|]. now rewrite Hnone.
Qed.

Lemma Set_key_value a s k v :
  key_value s = Some (k, v) ->
  annotationsMap_Set a s =
    ({| annotations := Some (<[k := v]> (bindings (annotations a))) |}, None).
Proof.
  intros H. unfold annotationsMap_Set. rewrite SplitN_key_value, H.
  cbn. destruct a as [[m|]]; reflexivity.
Qed.

Lemma Set_no_key_value a s :
  key_value s = None ->
  annotationsMap_Set a s =
    ({| annotations := Some (bindings (annotations a)) |},
     Some (Errorf ("invalid flag: " +:+ s +:+ ", expected key=value"))).
Proof.
  intros H. unfold annotationsMap_Set. rewrite SplitN_key_value, H.
  cbn. destruct a as [[m|]]; reflexivity.
Qed.

Lemma Set_all_lookup a l k :
  bindings (annotations (Set_all a l)) !! k =
  match last_write k l with
  | Some v => Some v
  | None => bindings (annotations a) !! k
  end.
Proof.
  revert a. induction l as [|s l IH]; intros a; [reflexivity|].
  unfold Set_all in *. cbn [foldl last_write]. rewrite IH.
  destruct (last_write k l); [reflexivity|].
  destruct (key_value s) as [[k' v]|] eqn:Hs.
  - rewrite (Set_key_value _ _ _ _ Hs). cbn.
    destruct (String.eqb_spec k' k) as [->|Hne].
    + apply lookup_insert_eq.
    + now apply lookup_insert_ne.
  - now rewrite (Set_no_key_value _ _ Hs).
Qed.

(** C9. [Set] on an argument with an ['='] binds the text before the first
    ['='] to the text after it and returns nil; on an argument without one it
    returns an error and the bindings stay as they were (a nil map is made
    an empty one on the way).  After any sequence
    of [Set] calls each key is bound to the value of the last call that named
    it, and keys no call named are bound as before. *)
Theorem annotations_last_write_wins :
  (forall a s,
      Contains s "=" = true ->
      exists k v,
        s = k +:+ "=" +:+ v /\ Contains k "=" = false /\
        key_value s = Some (k, v) /\
        annotationsMap_Set a s =
          ({| annotations := Some (<[k := v]> (bindings (annotations a))) |}, None)) /\
  (forall a s,
      Contains s "=" = false ->
      key_value s = None /\
      (exists e, snd (annotationsMap_Set a s) = Some e) /\
      fst (annotationsMap_Set a s) = {| annotations := Some (bindings (annotations a)) |} /\
      bindings (annotations (fst (annotationsMap_Set a s))) = bindings (annotations a)) /\
  (forall a l k,
      bindings (annotations (Set_all a l)) !! k =
      match last_write k l with
      | Some v => Some v
      | None => bindings (annotations a) !! k
      end).
Proof.
  split; [|split].
  - intros a s Hc.
    destruct (key_value s) as [[k v]|] eqn:Hs.
    + destruct (key_value_Some _ _ _ Hs) as [Heq Hk].
      exists k, v. repeat split; try assumption. now apply Set_key_value.
    + unfold key_value, Contains in *. destruct (Index s "="); discriminate.
  - intros a s Hc.
    assert (Hs : key_value s = None).
    { unfold key_value, Contains in *. destruct (Index s "="); [discriminate|reflexivity]. }
    rewrite (Set_no_key_value _ _ Hs). split; [exact Hs|].
    split; [eexists; reflexivity|]. split; reflexivity.
  - exact Set_all_lookup.
Qed.

Lemma annotations_last_write_wins_witness :
  let a := {| annotations := None |} in
  Contains "env=prod=eu" "=" = true /\
  Contains "oops" "=" = false /\
  annotationsMap_Set a "env=prod=eu" =
    ({| annotations := Some (<["env" := "prod=eu"]> (bindings None)) |}, None) /\
  bindings (annotations (fst (annotationsMap_Set a "oops"))) = bindings None /\
  bindings (annotations (Set_all a ["env=dev"; "oops"; "team=a"; "env=prod"])) !! "env" = Some "prod".
Proof.
  intros a.
  destruct annotations_last_write_wins as (Hset & Herr & Hlast).
  assert (H1 : Contains "env=prod=eu" "=" = true) by reflexivity.
  assert (H2 : Contains "oops" "=" = false) by reflexivity.
  split; [exact H1|]. split; [exact H2|].
  split.
  - destruct (Hset a _ H1) as (k & v & Hs & _ & Hkv & Hres).
    injection Hkv as <- <-. exact Hres.
  - split.
    + exact (proj2 (proj2 (proj2 (Herr a _ H2)))).
    + exact (Hlast a ["env=dev"; "oops"; "team=a"; "env=prod"] "env").
Defined.

(** * Further properties of [cmd/sign.go] *)

(** ** The steps of [sign] *)


(** X2. [sign] returns nil exactly when every step succeeds: the reference
    parses, the descriptor is fetched, the payload is read (override path) or
    built (no override), the passphrase is obtained, a key of 64 bytes is
    loaded and, when [upload] is set, the uploader accepts the signature of
    the payload at the derived tag. *)
Theorem sign_succeeds_iff_every_step_does
    E keyPath imageRef upload payloadPath ann uploader :
  outcome (sign E keyPath imageRef upload payloadPath ann uploader) = Return tt <->
  exists ref get payload pk,
    ready E keyPath imageRef payloadPath ann ref get payload pk /\
    (upload = true ->
     Upload uploader (ed25519_sign E pk payload) payload
            (Repository_Tag (Context ref) (munge (Digest_ (Descriptor get)))) = None).
Proof.
  unfold ready. sign_cases.
  all: split;
    [ intros H; try discriminate H;
      eexists _, _, _, _; repeat split; eauto; intros; congruence
    | intros (r' & g' & p' & k' & (H1 & H2 & H3 & (ps & H4 & H5) & H6) & H7);
      simplify_eq; try reflexivity; try congruence;
      try (specialize (H7 eq_refl); congruence) ].
Qed.

Lemma sign_succeeds_iff_every_step_does_witness :
  let E := World.env 64 in
  (exists ref get payload pk,
      ready E "cosign.key" "gcr.io/proj/a:v1" "payload.json" None ref get payload pk /\
      (true = true ->
       Upload World.accept (ed25519_sign E pk payload) payload
              (Repository_Tag (Context ref) (munge (Digest_ (Descriptor get)))) = None)) /\
  outcome (sign E "cosign.key" "gcr.io/proj/a:v1" true "payload.json" None World.accept)
  = Return tt.
Proof.
  intros E.
  assert (H : exists ref get payload pk,
      ready E "cosign.key" "gcr.io/proj/a:v1" "payload.json" None ref get payload pk /\
      (true = true ->
       Upload World.accept (ed25519_sign E pk payload) payload
              (Repository_Tag (Context ref) (munge (Digest_ (Descriptor get)))) = None)).
  { exists (TagRef (Repository_Tag World.repo_a "v1")), World.desc,
      (list_byte_of_string "hello"), (World.seed 64).
    split; [|reflexivity]. unfold ready. repeat split.
    exists (list_byte_of_string "secret"). split; reflexivity. }
  split; [exact H|].
  exact (proj2 (sign_succeeds_iff_every_step_does E "cosign.key" "gcr.io/proj/a:v1"
                  true "payload.json" None World.accept) H).
Defined.

(** X3. With an override payload path the annotations have no effect at all:
    the run is the same whatever they are. *)
Theorem override_payload_ignores_annotations
    E keyPath imageRef upload payloadPath ann1 ann2 uploader :
  payloadPath <> "" ->
  sign E keyPath imageRef upload payloadPath ann1 uploader =
  sign E keyPath imageRef upload payloadPath ann2 uploader.
Proof.
  intros Hne. sign_cases; try contradiction; reflexivity.
Qed.

Lemma override_payload_ignores_annotations_witness :
  "payload.json" <> "" /\
  sign (World.env 64) "cosign.key" "gcr.io/proj/a:v1" true "payload.json"
       (Some {[ "env" := "prod" ]}) World.accept =
  sign (World.env 64) "cosign.key" "gcr.io/proj/a:v1" true "payload.json"
       None World.accept.
Proof.
  assert (Hne : "payload.json" <> "") by discriminate.
  split; [exact Hne|].
  exact (override_payload_ignores_annotations (World.env 64) "cosign.key"
           "gcr.io/proj/a:v1" true "payload.json" (Some {[ "env" := "prod" ]}) None
           World.accept Hne).
Defined.

(** X4. With [upload] false the uploader has no effect at all: the run is
    the same whichever uploader is passed. *)
Theorem display_ignores_uploader E keyPath imageRef payloadPath ann uploader1 uploader2 :
  sign E keyPath imageRef false payloadPath ann uploader1 =
  sign E keyPath imageRef false payloadPath ann uploader2.
Proof.
  sign_cases; reflexivity.
Qed.

(** X5. The upload flag does not change what is signed.  When a run with
    [upload] set reaches its upload, the run on the same inputs with [upload]
    false succeeds, signs the same message and prints the base64 text of the
    very signature that was uploaded. *)
Theorem display_prints_what_upload_sends
    E keyPath imageRef payloadPath ann uploader signature message dst res :
  In (CallUpload signature message dst res)
     (trace (sign E keyPath imageRef true payloadPath ann uploader)) ->
  let d := sign E keyPath imageRef false payloadPath ann uploader in
  outcome d = Return tt /\
  stdout (trace d) = [EncodeToString signature +:+ newline] /\
  signed_messages (trace d) = [message].
Proof.
  intros H d; subst d; revert H. sign_cases; intros H; in_trace H;
    injection H as <- <- <- <-; repeat split.
Qed.

Lemma display_prints_what_upload_sends_witness :
  let E := World.env 64 in
  let message := list_byte_of_string ("sha256:" +:+ World.hex64) in
  let dst := Repository_Tag World.repo_a ("sha256-" +:+ World.hex64) in
  In (CallUpload (list_byte_of_string "sig") message dst (Some (Errorf "denied")))
     (trace (sign E "cosign.key" "gcr.io/proj/a:v1" true "" None World.reject)) /\
  outcome (sign E "cosign.key" "gcr.io/proj/a:v1" false "" None World.reject) = Return tt /\
  stdout (trace (sign E "cosign.key" "gcr.io/proj/a:v1" false "" None World.reject))
  = ["c2ln" +:+ newline].
Proof.
  intros E message dst.
  assert (Hin : In (CallUpload (list_byte_of_string "sig") message dst (Some (Errorf "denied")))
     (trace (sign E "cosign.key" "gcr.io/proj/a:v1" true "" None World.reject)))
    by (do 7 right; left; reflexivity).
  split; [exact Hin|].
  destruct (display_prints_what_upload_sends E "cosign.key" "gcr.io/proj/a:v1" "" None
              World.reject _ _ _ _ Hin) as (Hout & Hstd & _).
  split; [exact Hout|exact Hstd].
Defined.

(** X6. With [upload] set nothing is ever written to stdout.  A run that
    succeeds ends with its one upload, accepted by the uploader, of the one
    message that was signed. *)
Theorem upload_run E keyPath imageRef payloadPath ann uploader :
  let r := sign E keyPath imageRef true payloadPath ann uploader in
  stdout (trace r) = [] /\
  (outcome r = Return tt ->
   exists before signature message dst,
     trace r = before ++ [CallUpload signature message dst None] /\
     uploads (trace r) = [dst] /\
     signed_messages (trace r) = [message]).
Proof.
  intros r; subst r. sign_cases; (split; [reflexivity|]);
    try discriminate; intros _.
  - eexists [_; _; _; _; _; _; _], _, _, _. repeat split.
  - eexists [_; _; _; _; _; _; _; _], _, _, _. repeat split.
Qed.

Lemma upload_run_witness :
  let r := sign (World.env 64) "cosign.key" "gcr.io/proj/b:v1" true "payload.json" None
                World.accept in
  outcome r = Return tt /\
  stdout (trace r) = [] /\
  exists before signature message dst,
    trace r = before ++ [CallUpload signature message dst None] /\
    uploads (trace r) = [dst] /\
    signed_messages (trace r) = [message].
Proof.
  intros r.
  destruct (upload_run (World.env 64) "cosign.key" "gcr.io/proj/b:v1" "payload.json" None
              World.accept) as [Hstd Hup].
  split; [reflexivity|]. split; [exact Hstd|]. apply Hup. reflexivity.
Defined.

(** X7. What [sign] writes to stderr: the line [Using payload from: <path>]
    when an override path is given and the reference was resolved, then one
    line [Pushing signature to: <repository>:<tag>] for the upload, if the
    run gets that far; nothing else. *)
Theorem stderr_lines E keyPath imageRef upload payloadPath ann uploader :
  let r := sign E keyPath imageRef upload payloadPath ann uploader in
  stderr (trace r) =
    (if String.eqb payloadPath "" then []
     else match name_ParseReference E imageRef with
          | ok ref => match remote_Get E ref with
                      | ok _ => ["Using payload from: " +:+ payloadPath +:+ newline]
                      | failed _ => []
                      end
          | failed _ => []
          end)
    ++ map (fun dst => "Pushing signature to: " +:+
                       (Repository_Name (Tag_Repository dst) +:+ ":" +:+ TagStr dst) +:+
                       newline)
           (uploads (trace r)).
Proof.
  intros r; subst r. sign_cases; try reflexivity.
  all: destruct (String.eqb payloadPath ""); reflexivity.
Qed.

(** X8. Without an override path no file is read, and every message signed
    is the payload built from the descriptor of the resolved reference and
    the annotations passed in; what is uploaded is a message that was
    signed. *)
Theorem built_payload_is_signed E keyPath imageRef upload ann uploader :
  let r := sign E keyPath imageRef upload "" ann uploader in
  (forall m, In m (signed_messages (trace r)) ->
     exists ref' get',
       name_ParseReference E imageRef = ok ref' /\ remote_Get E ref' = ok get' /\
       pkg_Payload E (Descriptor get') ann = ok m) /\
  (forall signature m dst res, In (CallUpload signature m dst res) (trace r) ->
     In m (signed_messages (trace r))) /\
  Forall (fun ev => is_file_read ev = false) (trace r).
Proof.
  intros r; subst r. sign_cases; try (now contradiction Hpath); (split; [|split]).
  all: try (intros m H; in_trace H; subst m; eauto).
  all: try (intros signature m dst res H; in_trace H; injection H as <- <- <- <-; now left).
  all: repeat constructor.
Qed.

Lemma built_payload_is_signed_witness :
  let E := World.env 64 in
  let r := sign E "cosign.key" "gcr.io/proj/a:v1" true "" (Some {[ "env" := "prod" ]})
                World.accept in
  let m := list_byte_of_string ("sha256:" +:+ World.hex64) in
  In m (signed_messages (trace r)) /\
  exists ref' get',
    name_ParseReference E "gcr.io/proj/a:v1" = ok ref' /\ remote_Get E ref' = ok get' /\
    pkg_Payload E (Descriptor get') (Some {[ "env" := "prod" ]}) = ok m.
Proof.
  intros E r m.
  assert (Hin : In m (signed_messages (trace r))) by (left; reflexivity).
  split; [exact Hin|].
  exact (proj1 (built_payload_is_signed E "cosign.key" "gcr.io/proj/a:v1" true
                  (Some {[ "env" := "prod" ]}) World.accept) m Hin).
Defined.

(** ** The [Exec] closure of [Sign] *)

(** X9. The usage checks of [Sign] come before everything else.  With an
    empty key path, or with no or several arguments, it returns
    [flag.ErrHelp] having done nothing, whatever the other flags.  If it does
    anything at all, then a key path was given, there is exactly one
    argument and the format is registered; and in that case it runs [sign]
    on that argument with the flag values and the uploader registered for
    the format. *)
Theorem Sign_usage_checks_come_first E f args :
  (key f = "" \/ length args <> 1 -> Sign E f args = ([], Fail ErrHelp)) /\
  (trace (Sign E f args) <> [] ->
   key f <> "" /\ length args = 1 /\ is_Some (pkg_Uploaders E !! format f)) /\
  (forall arg uploader,
      key f <> "" -> args = [arg] -> pkg_Uploaders E !! format f = Some uploader ->
      Sign E f args =
      sign E (key f) arg (upload f) (payloadPath f) (annotations (flag_annotations f)) uploader).
Proof.
  unfold Sign.
  destruct (String.eqb_spec (key f) "") as [Hk|Hk];
    destruct (Nat.eqb_spec (length args) 1) as [Hn|Hn]; cbn [negb];
    (split; [|split]).
  all: try (intros _; reflexivity).
  all: try (intros H; now contradiction H).
  all: try (intros arg uploader H1 -> H3; first [contradiction | now contradiction Hn]).
  - intros [?|?]; contradiction.
  - intros H. destruct (pkg_Uploaders E !! format f); [eauto|now contradiction H].
  - intros arg uploader _ -> ->. reflexivity.
Qed.

Lemma Sign_usage_checks_come_first_witness :
  let E := World.env 64 in
  let f := {| key := "cosign.key"; upload := false; payloadPath := "";
              flag_annotations := {| annotations := None |}; format := "index" |} in
  length ["a"; "b"] <> 1 /\
  Sign E f ["a"; "b"] = ([], Fail ErrHelp) /\
  Sign E f ["gcr.io/proj/a:v1"] =
  sign E "cosign.key" "gcr.io/proj/a:v1" false "" None World.accept.
Proof.
  intros E f.
  assert (Hn : length ["a"; "b"] <> 1) by discriminate.
  split; [exact Hn|]. split.
  - exact (proj1 (Sign_usage_checks_come_first E f ["a"; "b"]) (or_intror Hn)).
  - apply (proj2 (proj2 (Sign_usage_checks_come_first E f ["gcr.io/proj/a:v1"])));
      [discriminate | reflexivity | reflexivity].
Defined.

(** ** More on the annotation flag *)

Lemma slice_to_append s t : slice_to (s +:+ t) (String.length s) = s.
Proof. induction s as [|c s IH]; simpl; [reflexivity|]. now rewrite IH. Qed.

Lemma slice_from_append s c t : slice_from (s +:+ String c t) (S (String.length s)) = t.
Proof. induction s as [|c' s IH]; simpl; [reflexivity|]. exact IH. Qed.

Lemma Contains_byte_false s c : Contains s (String c "") = false <-> Index s (String c "") = None.
Proof. unfold Contains. destruct (Index s (String c "")); split; congruence. Qed.

Lemma key_value_Sprintf k v :
  Contains k "=" = false -> key_value (Sprintf_kv (k, v)) = Some (k, v).
Proof.
  intros Hk%Contains_byte_false. unfold key_value, Sprintf_kv. cbn [fst snd].
  change (k +:+ "=" +:+ v) with (k +:+ String "=" v).
  rewrite (Index_byte_append_None "=" k v Hk).
  now rewrite slice_to_append, slice_from_append.
Qed.

Lemma last_write_Some k l v :
  last_write k l = Some v -> exists s, In s l /\ key_value s = Some (k, v).
Proof.
  induction l as [|s l IH]; [discriminate|]. cbn [last_write].
  destruct (last_write k l) as [v'|].
  - intros [= ->]. destruct (IH eq_refl) as (s' & Hin & Hs'). exists s'. split; [now right|exact Hs'].
  - destruct (key_value s) as [[k' v']|] eqn:Hs; [|discriminate].
    destruct (String.eqb_spec k' k) as [->|]; [|discriminate].
    intros [= ->]. exists s. split; [now left|exact Hs].
Qed.

Lemma keys_named_In k l :
  In k (keys_named l) <-> exists s v, In s l /\ key_value s = Some (k, v).
Proof.
  unfold keys_named. rewrite <- list_elem_of_In, list_elem_of_omap. split.
  - intros (s & Hin & Hs). destruct (key_value s) as [[k' v]|] eqn:Hkv; [|discriminate].
    injection Hs as ->. exists s, v. split; [now apply list_elem_of_In|exact Hkv].
  - intros (s & v & Hin & Hkv). exists s. split; [now apply list_elem_of_In|].
    now rewrite Hkv.
Qed.

Lemma keys_named_cons s l :
  keys_named (s :: l) =
  match key_value s with
  | Some (k, _) => k :: keys_named l
  | None => keys_named l
  end.
Proof. unfold keys_named. simpl. now destruct (key_value s) as [[k v]|]. Qed.

Lemma last_write_is_Some k l : is_Some (last_write k l) <-> In k (keys_named l).
Proof.
  rewrite keys_named_In. split.
  - intros [v Hv]. destruct (last_write_Some _ _ _ Hv) as (s & Hin & Hs). eauto.
  - intros (s & v & Hin & Hs). induction l as [|s' l IH]; [destruct Hin|].
    cbn [last_write]. destruct (last_write k l) as [v'|] eqn:Hl; [eauto|].
    destruct Hin as [->|Hin].
    + rewrite Hs, String.eqb_refl. eauto.
    + destruct (IH Hin) as [? [=]].
Qed.

(** With no key named twice, the value written for a key is the one of the
    only argument that names it. *)
Lemma last_write_unique k l s v :
  NoDup (keys_named l) -> In s l -> key_value s = Some (k, v) -> last_write k l = Some v.
Proof.
  induction l as [|s' l IH]; [intros _ []|].
  intros Hnd Hin Hs. cbn [last_write].
  assert (Hnd' : NoDup (keys_named l)).
  { rewrite keys_named_cons in Hnd.
    destruct (key_value s') as [[k' v']|]; [now apply NoDup_cons in Hnd as [_ ?]|exact Hnd]. }
  destruct Hin as [->|Hin].
  - assert (Hnone : last_write k l = None).
    { destruct (last_write k l) as [v'|] eqn:Hl; [|reflexivity].
      assert (Hk : In k (keys_named l)) by (apply last_write_is_Some; eauto).
      rewrite keys_named_cons, Hs in Hnd.
      apply NoDup_cons in Hnd as [Hnotin _]. contradict Hnotin. now apply list_elem_of_In. }
    now rewrite Hnone, Hs, String.eqb_refl.
  - now rewrite (IH Hnd' Hin Hs).
Qed.

Lemma last_write_Permutation k l1 l2 :
  l1 ≡ₚ l2 -> NoDup (keys_named l1) -> last_write k l1 = last_write k l2.
Proof.
  intros Hp Hnd1.
  assert (Hnd2 : NoDup (keys_named l2)).
  { unfold keys_named in *. now rewrite <- Hp. }
  destruct (last_write k l1) as [v|] eqn:H1.
  - destruct (last_write_Some _ _ _ H1) as (s & Hin & Hs).
    symmetry. apply (last_write_unique k l2 s v Hnd2); [|exact Hs].
    now apply (Permutation_in _ Hp).
  - destruct (last_write k l2) as [v|] eqn:H2; [|reflexivity].
    destruct (last_write_Some _ _ _ H2) as (s & Hin & Hs).
    rewrite (last_write_unique k l1 s v Hnd1) in H1; [discriminate| |exact Hs].
    now apply (Permutation_in _ (Permutation_sym Hp)).
Qed.

Lemma last_write_app k l1 l2 :
  last_write k (l1 ++ l2) =
  match last_write k l2 with Some v => Some v | None => last_write k l1 end.
Proof.
  induction l1 as [|s l1 IH]; cbn [app last_write].
  - now destruct (last_write k l2).
  - rewrite IH. now destruct (last_write k l2).
Qed.

(** X11. [Set] undoes the formatting of a pair: given [k=v] for a key
    without ['='] it binds exactly [k] to [v], whatever [v] holds (further
    ['='] signs, nothing at all) and also when [k] is empty; looking [k] up
    afterwards gives [v]. *)
Theorem Set_stores_formatted_pair a k v :
  Contains k "=" = false ->
  annotationsMap_Set a (Sprintf_kv (k, v)) =
    ({| annotations := Some (<[k := v]> (bindings (annotations a))) |}, None) /\
  bindings (annotations (fst (annotationsMap_Set a (Sprintf_kv (k, v))))) !! k = Some v.
Proof.
  intros Hk. rewrite (Set_key_value a _ k v (key_value_Sprintf k v Hk)).
  split; [reflexivity|]. apply lookup_insert_eq.
Qed.

Lemma Set_stores_formatted_pair_witness :
  Contains "" "=" = false /\
  annotationsMap_Set {| annotations := None |} (Sprintf_kv ("", "a=b")) =
    ({| annotations := Some (<["" := "a=b"]> ∅) |}, None).
Proof.
  assert (Hk : Contains "" "=" = false) by reflexivity.
  split; [exact Hk|].
  exact (proj1 (Set_stores_formatted_pair {| annotations := None |} "" "a=b" Hk)).
Defined.

(** X12. [Set] never removes a binding and never invents a key: after any
    sequence of calls the keys bound are those bound before and those the
    arguments name.  A key taken from an argument never contains ['=']. *)
Theorem Set_all_domain a l :
  (forall k, is_Some (bindings (annotations (Set_all a l)) !! k) <->
             is_Some (bindings (annotations a) !! k) \/ In k (keys_named l)) /\
  Forall (fun k => Contains k "=" = false) (keys_named l).
Proof.
  split.
  - intros k. rewrite Set_all_lookup, <- last_write_is_Some.
    destruct (last_write k l) as [v|]; split; eauto.
    intros [H|[? [=]]]; exact H.
  - apply Forall_forall. intros k Hk.
    apply list_elem_of_In, keys_named_In in Hk. destruct Hk as (s & v & _ & Hs).
    now destruct (key_value_Some _ _ _ Hs).
Qed.

(** X13. When no key is named twice, the order of the [Set] calls does not
    matter: any reordering of the arguments yields the same bindings. *)
Theorem Set_all_order_irrelevant a l1 l2 :
  l1 ≡ₚ l2 -> NoDup (keys_named l1) ->
  bindings (annotations (Set_all a l1)) = bindings (annotations (Set_all a l2)).
Proof.
  intros Hp Hnd. apply map_eq. intros k.
  now rewrite !Set_all_lookup, (last_write_Permutation k l1 l2 Hp Hnd).
Qed.

Lemma Set_all_order_irrelevant_witness :
  let a := {| annotations := Some {[ "team" := "a" ]} |} in
  ["env=prod"; "oops"; "tier=1"] ≡ₚ ["tier=1"; "env=prod"; "oops"] /\
  NoDup (keys_named ["env=prod"; "oops"; "tier=1"]) /\
  bindings (annotations (Set_all a ["env=prod"; "oops"; "tier=1"])) =
  bindings (annotations (Set_all a ["tier=1"; "env=prod"; "oops"])).
Proof.
  intros a.
  assert (Hp : ["env=prod"; "oops"; "tier=1"] ≡ₚ ["tier=1"; "env=prod"; "oops"]).
  { change (["env=prod"; "oops"] ++ ["tier=1"] ≡ₚ ["tier=1"] ++ ["env=prod"; "oops"]).
    apply Permutation_app_comm. }
  assert (Hnd : NoDup (keys_named ["env=prod"; "oops"; "tier=1"])).
  { change (NoDup ["env"; "tier"]).
    apply NoDup_cons. split.
    - intros H%list_elem_of_In. simpl in H. intuition discriminate.
    - apply NoDup_singleton. }
  split; [exact Hp|]. split; [exact Hnd|].
  exact (Set_all_order_irrelevant a _ _ Hp Hnd).
Defined.

(** X14. Replaying a whole sequence of [Set] calls changes nothing: the
    bindings after the arguments given twice over are those after the
    arguments given once. *)
Theorem Set_all_replay a l :
  bindings (annotations (Set_all a (l ++ l))) = bindings (annotations (Set_all a l)).
Proof.
  apply map_eq. intros k. rewrite !Set_all_lookup, last_write_app.
  now destruct (last_write k l).
Qed.

(** ** [annotationsMap.String] *)

Lemma all_string_app p s t : all_string p (s +:+ t) = all_string p s && all_string p t.
Proof. induction s as [|c s IH]; simpl; [reflexivity|]. now rewrite IH, andb_assoc. Qed.

Lemma string_length_app s t : String.length (s +:+ t) = String.length s + String.length t.
Proof. induction s as [|c s IH]; simpl; [reflexivity|]. now rewrite IH. Qed.

Lemma piece_without_comma k v :
  Contains k "," = false -> Contains v "," = false ->
  Index (Sprintf_kv (k, v)) "," = None.
Proof.
  rewrite !Contains_byte_false, !Index_byte_None. intros Hk Hv.
  unfold Sprintf_kv. cbn [fst snd]. rewrite all_string_app, Hk.
  change ("=" +:+ v) with (String "=" v). simpl. exact Hv.
Qed.

Lemma genSplit_last fuel e : Index e "," = None -> genSplit fuel e "," = [e].
Proof. intros He. destruct fuel; simpl; [reflexivity|]. now rewrite He. Qed.

Lemma genSplit_Join pieces : forall fuel,
  pieces <> [] ->
  Forall (fun p => Index p "," = None) pieces ->
  length pieces <= S fuel ->
  genSplit fuel (Join pieces ",") "," = pieces.
Proof.
  induction pieces as [|e rest IH]; intros fuel Hne Hall Hlen; [contradiction|].
  apply Forall_cons in Hall as [He Hrest].
  destruct rest as [|e' rest'].
  - now apply genSplit_last.
  - destruct fuel as [|fuel]; [simpl in Hlen; lia|].
    change (Join (e :: e' :: rest') ",") with (e +:+ String "," (Join (e' :: rest') ",")).
    cbn [genSplit]. rewrite (Index_byte_append_None "," e _ He).
    rewrite slice_to_append.
    replace (String.length e + String.length ",") with (S (String.length e)) by (simpl; lia).
    rewrite slice_from_append. f_equal.
    apply IH; [discriminate|exact Hrest|simpl in *; lia].
Qed.

Lemma Join_length pieces : length pieces <= S (String.length (Join pieces ",")).
Proof.
  induction pieces as [|e rest IH]; [simpl; lia|].
  destruct rest as [|e' rest']; [simpl; lia|].
  change (Join (e :: e' :: rest') ",") with (e +:+ String "," (Join (e' :: rest') ",")).
  rewrite string_length_app. simpl in *. lia.
Qed.

Lemma Split_Join pieces :
  pieces <> [] ->
  Forall (fun p => Index p "," = None) pieces ->
  Split (Join pieces ",") "," = pieces.
Proof.
  intros Hne Hall.
  change (Split (Join pieces ",") ",")
    with (genSplit (String.length (Join pieces ",")) (Join pieces ",") ",").
  apply genSplit_Join; [exact Hne|exact Hall|apply Join_length].
Qed.

Lemma keys_named_pieces visited :
  Forall (fun kv => Contains kv.1 "=" = false) visited ->
  keys_named (String_pieces visited) = visited.*1.
Proof.
  induction 1 as [|[k v] visited Hk _ IH]; [reflexivity|].
  unfold String_pieces in *. cbn [map fmap list_fmap].
  now rewrite keys_named_cons, (key_value_Sprintf k v Hk), IH.
Qed.

(** What [Set] rebuilds from the pieces of [String]. *)
Lemma Set_all_pieces (m : gmap string string) visited a :
  visited ≡ₚ map_to_list m ->
  Forall (fun kv => Contains kv.1 "=" = false) visited ->
  bindings (annotations a) = ∅ ->
  bindings (annotations (Set_all a (String_pieces visited))) = m.
Proof.
  intros Hp Hkeys Ha. apply map_eq. intros k.
  rewrite Set_all_lookup, Ha, lookup_empty.
  assert (Hnd : NoDup (keys_named (String_pieces visited))).
  { rewrite (keys_named_pieces _ Hkeys), Hp. apply NoDup_fst_map_to_list. }
  destruct (m !! k) as [v|] eqn:Hm.
  - assert (Hin : (k, v) ∈ visited) by (rewrite Hp; now apply elem_of_map_to_list).
    rewrite (last_write_unique k _ (Sprintf_kv (k, v)) v Hnd); [reflexivity| |].
    + apply in_map, list_elem_of_In, Hin.
    + apply key_value_Sprintf.
      rewrite Forall_forall in Hkeys. exact (Hkeys _ Hin).
  - destruct (last_write k (String_pieces visited)) as [v|] eqn:Hl; [|reflexivity].
    destruct (last_write_Some _ _ _ Hl) as (s & Hin & Hs).
    apply in_map_iff in Hin as ([k' v'] & <- & Hin). apply list_elem_of_In in Hin.
    rewrite key_value_Sprintf in Hs by (rewrite Forall_forall in Hkeys; exact (Hkeys _ Hin)).
    injection Hs as -> ->.
    rewrite Hp in Hin. apply elem_of_map_to_list in Hin. congruence.
Qed.

(** X15. [String] on the nil map and on the empty map returns the empty
    string, and on a map with one entry the text [key=value]: in these cases
    the iteration order leaves no choice. *)
Theorem String_of_small_maps a out :
  (bindings (annotations a) = ∅ -> annotationsMap_String a out <-> out = "") /\
  (forall k v, bindings (annotations a) = {[k := v]} ->
               annotationsMap_String a out <-> out = k +:+ "=" +:+ v).
Proof.
  unfold annotationsMap_String, range_order. split.
  - intros ->. rewrite map_to_list_empty. split.
    + intros (visited & ->%Permutation_nil_r & ->). reflexivity.
    + intros ->. exists []. split; reflexivity.
  - intros k v ->. rewrite map_to_list_singleton. split.
    + intros (visited & ->%Permutation_singleton_r & ->). reflexivity.
    + intros ->. exists [(k, v)]. split; reflexivity.
Qed.

Lemma String_of_small_maps_witness :
  bindings (annotations {| annotations := None |}) = ∅ /\
  annotationsMap_String {| annotations := None |} "" /\
  annotationsMap_String {| annotations := Some {[ "env" := "prod" ]} |} "env=prod".
Proof.
  assert (H0 : bindings (annotations {| annotations := None |}) = ∅) by reflexivity.
  split; [exact H0|]. split.
  - exact (proj2 (proj1 (String_of_small_maps {| annotations := None |} "") H0) eq_refl).
  - exact (proj2 (proj2 (String_of_small_maps {| annotations := Some {[ "env" := "prod" ]} |}
                           "env=prod") "env" "prod" eq_refl) eq_refl).
Defined.

(** X16. [String] and [Set] round-trip.  If no key holds ['='] or [','] and
    no value holds [','], then whatever order [String] visits the map in,
    cutting its result at the commas and giving the pieces to [Set], starting
    from the nil map, rebuilds exactly the bindings of the map. *)
Theorem String_then_Set_round_trip a out :
  (forall k v, bindings (annotations a) !! k = Some v ->
               Contains k "=" = false /\ Contains k "," = false /\ Contains v "," = false) ->
  annotationsMap_String a out ->
  bindings (annotations (Set_all {| annotations := None |} (Split out ","))) =
  bindings (annotations a).
Proof.
  intros Hclean (visited & Hp & ->). unfold range_order in Hp.
  assert (Hin : forall k v, (k, v) ∈ visited -> bindings (annotations a) !! k = Some v).
  { intros k v H. rewrite Hp in H. now apply elem_of_map_to_list. }
  destruct visited as [|kv visited'] eqn:Hv.
  - apply Permutation_nil_l in Hp. symmetry in Hp. apply map_to_list_empty_iff in Hp.
    rewrite Hp. reflexivity.
  - rewrite <- Hv in *. unfold String_of. rewrite Split_Join.
    + apply Set_all_pieces; [exact Hp| |reflexivity].
      apply Forall_forall. intros [k v] H. now destruct (Hclean _ _ (Hin _ _ H)).
    + rewrite Hv. discriminate.
    + unfold String_pieces. apply Forall_forall. intros p Hp'.
      apply list_elem_of_In, in_map_iff in Hp' as ([k v] & <- & H%list_elem_of_In).
      destruct (Hclean _ _ (Hin _ _ H)) as (_ & Hk & Hv').
      now apply piece_without_comma.
Qed.

Lemma String_then_Set_round_trip_witness :
  let m : gmap string string := <["env" := "prod=eu"]> {[ "team" := "a" ]} in
  let a := {| annotations := Some m |} in
  (forall k v, bindings (annotations a) !! k = Some v ->
               Contains k "=" = false /\ Contains k "," = false /\ Contains v "," = false) /\
  annotationsMap_String a "team=a,env=prod=eu" /\
  bindings (annotations (Set_all {| annotations := None |} (Split "team=a,env=prod=eu" ","))) = m.
Proof.
  intros m a.
  assert (Hclean : forall k v, bindings (annotations a) !! k = Some v ->
               Contains k "=" = false /\ Contains k "," = false /\ Contains v "," = false).
  { intros k v H. change (bindings (annotations a)) with m in H. unfold m in H.
    apply lookup_insert_Some in H as [[<- <-]|[_ H]]; [repeat split|].
    apply lookup_singleton_Some in H as [<- <-]. repeat split. }
  assert (Hout : annotationsMap_String a "team=a,env=prod=eu").
  { exists [("team", "a"); ("env", "prod=eu")]. split; [|reflexivity].
    change ([("team", "a"); ("env", "prod=eu")] ≡ₚ
            map_to_list (<["env" := "prod=eu"]> ({[ "team" := "a" ]} : gmap string string))).
    rewrite map_to_list_insert by reflexivity.
    rewrite map_to_list_singleton. apply perm_swap. }
  split; [exact Hclean|]. split; [exact Hout|].
  exact (String_then_Set_round_trip a "team=a,env=prod=eu" Hclean Hout).
Defined.

(** ** More on the address *)

Lemma all_string_map p f s : all_string p (map_string f s) = all_string (fun c => p (f c)) s.
Proof. induction s as [|c s IH]; simpl; [reflexivity|]. now rewrite IH. Qed.

Lemma all_string_true p s : (forall c, p c = true) -> all_string p s = true.
Proof. intros Hp. induction s as [|c s IH]; simpl; [reflexivity|]. now rewrite Hp, IH. Qed.

Lemma map_string_length f s : String.length (map_string f s) = String.length s.
Proof. induction s as [|c s IH]; simpl; [reflexivity|]. now rewrite IH. Qed.

Lemma subst_colon_not_colon c : negb (Ascii.eqb (subst ":" "-" c) ":") = true.
Proof. unfold subst. destruct (Ascii.eqb_spec c ":") as [->|Hc]; [reflexivity|].
  now destruct (Ascii.eqb_spec c ":"). Qed.

Lemma alnum_tag_char c : is_lower c || is_digit c = true -> is_tag_char (subst ":" "-" c) = true.
Proof.
  intros Hc. rewrite (alnum_not_separator ":" "-" (or_introl eq_refl) c Hc).
  unfold is_tag_char. now rewrite Hc.
Qed.

Lemma munge_digest_form h :
  digest_form h = true -> munge h = Algorithm h +:+ String "-" (Hex h).
Proof.
  intros [Ha Hh]%digest_form_alnum.
  rewrite munge_bytewise. unfold Hash_String. rewrite map_subst_append.
  change (map_string (subst ":" "-") (":" +:+ Hex h))
    with (String (subst ":" "-" ":") (map_string (subst ":" "-") (Hex h))).
  rewrite subst_same.
  rewrite (map_string_fixed _ _ _ (alnum_not_separator ":" "-" (or_introl eq_refl)) Ha).
  now rewrite (map_string_fixed _ _ _ (alnum_not_separator ":" "-" (or_introl eq_refl)) Hh).
Qed.

Lemma alnum_without_dash s :
  all_string (fun c => is_lower c || is_digit c) s = true -> Index s "-" = None.
Proof.
  intros Hs. apply Index_byte_None. revert Hs. apply all_string_weaken.
  intros c Hc. destruct (Ascii.eqb_spec c "-") as [->|]; [discriminate Hc|reflexivity].
Qed.

Lemma append_byte_inj a s1 t1 s2 t2 :
  Index s1 (String a "") = None -> Index s2 (String a "") = None ->
  s1 +:+ String a t1 = s2 +:+ String a t2 -> s1 = s2 /\ t1 = t2.
Proof.
  intros H1 H2 Heq.
  assert (Hlen : String.length s1 = String.length s2).
  { pose proof (Index_byte_append_None a s1 t1 H1) as I1.
    pose proof (Index_byte_append_None a s2 t2 H2) as I2.
    rewrite Heq in I1. congruence. }
  split.
  - rewrite <- (slice_to_append s1 (String a t1)), Heq, Hlen. apply slice_to_append.
  - rewrite <- (slice_from_append s1 a t1), Heq, Hlen. apply slice_from_append.
Qed.

(** X17. The tag [munge] yields never holds a [':'], whatever the digest,
    and is as long as the digest string.  For a digest in [algorithm:hex]
    form it is made of lower-case letters, digits and ['-'] only. *)
Theorem munge_is_tag_safe h :
  Contains (munge h) ":" = false /\
  String.length (munge h) = String.length (Hash_String h) /\
  (digest_form h = true -> all_string is_tag_char (munge h) = true).
Proof.
  rewrite munge_bytewise. split; [|split].
  - apply Contains_byte_false, Index_byte_None. rewrite all_string_map.
    apply all_string_true, subst_colon_not_colon.
  - apply map_string_length.
  - intros [Ha Hh]%digest_form_alnum. unfold Hash_String.
    rewrite all_string_map, !all_string_app.
    rewrite (all_string_weaken _ _ _ alnum_tag_char Ha).
    rewrite (all_string_weaken _ _ _ alnum_tag_char Hh).
    reflexivity.
Qed.

Lemma munge_is_tag_safe_witness :
  digest_form World.sha = true /\
  Contains (munge World.sha) ":" = false /\
  String.length (munge World.sha) = 71 /\
  all_string is_tag_char (munge World.sha) = true.
Proof.
  assert (Hf : digest_form World.sha = true) by reflexivity.
  destruct (munge_is_tag_safe World.sha) as (Hc & Hl & Ht).
  split; [exact Hf|]. split; [exact Hc|]. split; [exact Hl|]. exact (Ht Hf).
Defined.

(** X18. Two digests in [algorithm:hex] form with the same tag are the same
    digest: distinct digests never share a publication tag.  (Without the
    form the tags can collide, see [munge_collision].) *)
Theorem munge_injective h1 h2 :
  digest_form h1 = true -> digest_form h2 = true ->
  munge h1 = munge h2 -> h1 = h2.
Proof.
  intros F1 F2. rewrite (munge_digest_form _ F1), (munge_digest_form _ F2).
  destruct (digest_form_alnum _ F1) as [A1 _], (digest_form_alnum _ F2) as [A2 _].
  intros [Ha Hh]%append_byte_inj; try now apply alnum_without_dash.
  destruct h1, h2; simpl in *; congruence.
Qed.

Lemma munge_injective_witness :
  let h := {| Algorithm := "sha256"; Hex := "abc123" |} in
  digest_form h = true /\ digest_form World.sha = true /\
  (munge h = munge World.sha -> h = World.sha).
Proof.
  intros h. split; [reflexivity|]. split; [reflexivity|].
  exact (munge_injective h World.sha eq_refl eq_refl).
Defined.

Example munge_collision :
  munge {| Algorithm := "a-b"; Hex := "c" |} = munge {| Algorithm := "a"; Hex := "b-c" |}.
Proof. reflexivity. Qed.

(** ** The printed signature *)

Lemma list_ind3 {A} (P : list A -> Prop) :
  P [] -> (forall a, P [a]) -> (forall a b, P [a; b]) ->
  (forall a b c l, P l -> P (a :: b :: c :: l)) ->
  forall l, P l.
Proof.
  intros H0 H1 H2 H3 l.
  enough (P l /\ (forall a, P (a :: l)) /\ (forall a b, P (a :: b :: l))) by tauto.
  induction l as [|x l (IH0 & IH1 & IH2)]; auto.
Qed.

Lemma sextet_base64 n : is_base64 (sextet n) = true.
Proof.
  unfold sextet.
  assert (Hlt : N.to_nat (N.land n 63) < 64).
  { change 63%N with (N.ones 6). rewrite N.land_ones.
    pose proof (N.mod_upper_bound n (2 ^ 6)%N). change (2 ^ 6)%N with 64%N in *. lia. }
  revert Hlt. generalize (N.to_nat (N.land n 63)). intros m Hlt.
  do 64 (destruct m as [|m]; [reflexivity|]). lia.
Qed.

Lemma EncodeToString_base64 src :
  all_string is_base64 (EncodeToString src) = true /\
  String.length (EncodeToString src) = 4 * ((length src + 2) / 3).
Proof.
  induction src as [|a|a b|a b c l [IHa IHl]] using list_ind3.
  - split; reflexivity.
  - split; [|reflexivity]. cbn [EncodeToString all_string]. now rewrite !sextet_base64.
  - split; [|reflexivity]. cbn [EncodeToString all_string]. now rewrite !sextet_base64.
  - split.
    + cbn [EncodeToString all_string]. now rewrite !sextet_base64, IHa.
    + cbn [EncodeToString String.length]. rewrite IHl. cbn [length].
      replace (S (S (S (length l))) + 2) with ((length l + 2) + 1 * 3) by lia.
      rewrite Nat.div_add by discriminate. lia.
Qed.

(** X19. Whatever [sign] writes to stdout is one line, written once: the
    base64 text of a signature made in that run, four characters for every
    three bytes (rounded up), all from the base64 alphabet or the padding,
    followed by the newline. *)
Theorem stdout_is_one_base64_line E keyPath imageRef upload payloadPath ann uploader line :
  In line (stdout (trace (sign E keyPath imageRef upload payloadPath ann uploader))) ->
  exists key message signature,
    In (CallEd25519Sign key message (Some signature))
       (trace (sign E keyPath imageRef upload payloadPath ann uploader)) /\
    line = EncodeToString signature +:+ newline /\
    all_string is_base64 (EncodeToString signature) = true /\
    String.length (EncodeToString signature) = 4 * ((length signature + 2) / 3) /\
    stdout (trace (sign E keyPath imageRef upload payloadPath ann uploader)) = [line].
Proof.
  sign_cases; intros H; in_trace H; subst line;
    eexists _, _, _; (split; [simpl; eauto 10|]); (split; [reflexivity|]);
    (split; [apply EncodeToString_base64|]); (split; [apply EncodeToString_base64|]);
    reflexivity.
Qed.


Lemma stdout_is_one_base64_line_witness :
  let r := sign (World.env 64) "cosign.key" "gcr.io/proj/a:v1" false "" None World.accept in
  In ("c2ln" +:+ newline) (stdout (trace r)) /\
  exists key message signature,
    In (CallEd25519Sign key message (Some signature)) (trace r) /\
    "c2ln" +:+ newline = EncodeToString signature +:+ newline /\
    all_string is_base64 (EncodeToString signature) = true /\
    String.length (EncodeToString signature) = 4 * ((length signature + 2) / 3) /\
    stdout (trace r) = ["c2ln" +:+ newline].
Proof.
  intros r.
  assert (Hin : In ("c2ln" +:+ newline) (stdout (trace r))) by (left; reflexivity).
  split; [exact Hin|].
  exact (stdout_is_one_base64_line (World.env 64) "cosign.key" "gcr.io/proj/a:v1" false ""
           None World.accept _ Hin).
Defined.
